(** * The hashR lookup analyzer ([timesketch/lib/analyzers/hashr_lookup.py])

    A shallow embedding of [HashRLookup]: the batch generator, the
    reconciliation against the hashR database, the per-event annotation and
    the [run] entry point, followed by the properties of the hash
    reconciliation engine.

    Python objects are modelled as follows.
    - A [dict] is an insertion-ordered association list ([PyDict.t]); its
      extensional content is the [gmap] it denotes ([PyDict.to_gmap]), which
      is what Python's [==] on dicts compares.
    - A [set] of strings is a [gset string].
    - The events produced by the event stream are objects that the analyzer
      mutates in place: the stream is a heap [list Event] and a reference to
      an event is its position in the stream.
    - Exceptions are values of [exn]; a call either returns or raises. *)

From Stdlib Require Import ZArith Lia.
From stdpp Require Import base gmap sets list strings pretty sorting.

Open Scope string_scope.
Open Scope list_scope.
Open Scope nat_scope.
#[local] Set Warnings "-register-all".

(** ** Python values and exceptions *)

Inductive exn : Type :=
  | ConfigError          (* connection details missing in timesketch.conf *)
  | ConnectionError      (* sqla.exc.OperationalError re-raised *)
  | MissingTablesError   (* samples / sources / samples_sources absent *)
  | UnboundEngineError   (* reflection on a MetaData bound to None *)
  | ZeroDivisionError
  | ValueError
  | TypeError
  | KeyError.

Inductive result (A : Type) : Type :=
  | Ok (a : A)
  | Err (e : exn).
Arguments Ok {A} a.
Arguments Err {A} e.

(** A call on a mutable receiver: the receiver's state is observable on both
    exits. *)
Inductive outcome (S A : Type) : Type :=
  | Return (st : S) (a : A)
  | Raise (st : S) (e : exn).
Arguments Return {S A} st a.
Arguments Raise {S A} st e.

(** The values a field of an event's [_source] document (or a configuration
    entry) can hold. *)
Inductive value : Type :=
  | VNone
  | VBool (b : bool)
  | VInt (n : Z)
  | VStr (s : string)
  | VList (l : list value).

(** Python truthiness: [not v] is [negb (truthy v)]. *)
Definition truthy (v : value) : bool :=
  match v with
  | VNone => false
  | VBool b => b
  | VInt n => negb (n =? 0)%Z
  | VStr s => negb (String.eqb s "")
  | VList l => match l with [] => false | _ => true end
  end.

(** [len(v)]: a [TypeError] for values without a length. *)
Definition py_len (v : value) : result nat :=
  match v with
  | VStr s => Ok (String.length s)
  | VList l => Ok (length l)
  | _ => Err TypeError
  end.

(** ** Insertion-ordered dictionaries *)

Module PyDict.

Definition t (V : Type) : Type := list (string * V).

Definition empty {V} : t V := [].

Fixpoint get {V} (k : string) (d : t V) : option V :=
  match d with
  | [] => None
  | (k', v) :: d' => if decide (k = k') then Some v else get k d'
  end.

(** [d.setdefault(k, dflt)] followed by the in-place mutation [f] of the
    object it returns. A new key goes to the end; an existing key keeps its
    position. *)
Fixpoint setdefault_update {V} (k : string) (dflt : V) (f : V → V)
    (d : t V) : t V :=
  match d with
  | [] => [(k, f dflt)]
  | (k', v) :: d' =>
      if decide (k = k') then (k', f v) :: d'
      else (k', v) :: setdefault_update k dflt f d'
  end.

Definition keys {V} (d : t V) : list string := d.*1.

Definition items {V} (d : t V) : list (string * V) := d.

Definition len {V} (d : t V) : nat := length d.

(** The finite map a dictionary denotes. *)
Definition to_gmap {V} (d : t V) : gmap string V := list_to_map d.

End PyDict.

(** ** Events *)

Record Event : Type := mkEvent {
  source : gmap string value;
  tags : gset string;
  attributes : gmap string (list string);
  commits : nat
}.

(** Modelled from the spec: [interface.Event.add_tags] is not part of the
    analyzer's file. The spec gives tags as a set of short labels and makes
    re-adding a label a no-op. *)
Definition add_tags (labels : list string) (e : Event) : Event :=
  mkEvent (source e) (tags e ∪ list_to_set labels) (attributes e) (commits e).

(** Modelled from the spec: [interface.Event.add_attributes] is not part of
    the analyzer's file. The spec gives attributes as a mapping of named
    values; the given entries are written over the event's. *)
Definition add_attributes (attrs : gmap string (list string)) (e : Event)
    : Event :=
  mkEvent (source e) (tags e) (attrs ∪ attributes e) (commits e).

(** Modelled from the spec: [interface.Event.commit] is not part of the
    analyzer's file. The event records how often it was committed. *)
Definition commit (e : Event) : Event :=
  mkEvent (source e) (tags e) (attributes e) (S (commits e)).

(** ** The hashR database *)

(** A column holding either a text or a text array. *)
Inductive colval : Type :=
  | CStr (s : string)
  | CList (l : list string).

Record SourceRow : Type := mkSourceRow {
  src_sha256 : string;
  sourceid : colval;
  reponame : string
}.

Record Database : Type := mkDatabase {
  table_names : list string;
  samples : list string;
  sources : list SourceRow;
  samples_sources : list (string * string)
}.

(** A result row: four columns from the join, one column from [samples]. *)
Inductive Row : Type :=
  | RowJoin (sample_sha256 source_sha256 : string) (srcid : colval)
      (repo : string)
  | RowSample (sha256 : string).

(** [entry[0]] *)
Definition sample_hash_of (entry : Row) : string :=
  match entry with
  | RowJoin h _ _ _ => h
  | RowSample h => h
  end.

(** [";".join(l)] *)
Fixpoint join_semicolon (l : list string) : string :=
  match l with
  | [] => ""
  | [x] => x
  | x :: rest => x +:+ ";" +:+ join_semicolon rest
  end.

(** The [try]/[except] of the result loop: [entry[2]] raises [IndexError]
    on a one-column row, which yields the sentinel. *)
Definition source_of (entry : Row) : string :=
  match entry with
  | RowJoin _ _ (CList ids) repo => repo +:+ ":" +:+ join_semicolon ids
  | RowJoin _ _ (CStr id) repo => repo +:+ ":" +:+ id
  | RowSample _ => "TagsOnly"
  end.

(** [select ... from samples_sources join sources on source_sha256 = sha256
    where sample_sha256 in batch] *)
Definition select_join (db : Database) (batch : list string) : list Row :=
  ss ← samples_sources db;
  s ← sources db;
  if bool_decide (ss.2 = src_sha256 s ∧ ss.1 ∈ batch)
  then [RowJoin ss.1 ss.2 (sourceid s) (reponame s)]
  else [].

(** [select sha256 from samples where sha256 in batch] *)
Definition select_samples (db : Database) (batch : list string) : list Row :=
  RowSample <$> filter (λ h, h ∈ batch) (samples db).

(** [conn.execute(select_statement)] for a statement the driver accepts; a
    statement the driver or the server rejects raises instead, which the
    model does not cover. *)
Definition execute (with_sources : bool) (db : Database)
    (batch : list string) : list Row :=
  if with_sources then select_join db batch else select_samples db batch.

(** The engine held in [self.hashr_conn]: the database behind it, the
    membership lists of the queries executed so far, and the number of
    [dispose()] calls. *)
Record Engine : Type := mkEngine {
  db : Database;
  executed : list (list string);
  disposed : nat
}.

Definition log_query (batch : list string) (eng : Engine) : Engine :=
  mkEngine (db eng) (executed eng ++ [batch]) (disposed eng).

Definition dispose (eng : Engine) : Engine :=
  mkEngine (db eng) (executed eng) (S (disposed eng)).

(** ** The analyzer object *)

Record Output : Type := mkOutput {
  result_status : string;
  result_priority : string;
  result_summary : string;
  result_markdown : string
}.

Record Analyzer : Type := mkAnalyzer {
  zerobyte_file_counter : nat;
  known_hash_event_counter : nat;
  unique_known_hash_counter : nat;
  hashr_conn : option Engine;
  add_source_attribute : value;
  query_batch_size : option Z;
  output : Output
}.

Definition DEFAULT_BATCH_SIZE : Z := 50000.

(** The class attributes a fresh instance starts from. *)
Definition new_analyzer (out : Output) : Analyzer :=
  mkAnalyzer 0 0 0 None VNone None out.

Definition set_conn (c : option Engine) (self : Analyzer) : Analyzer :=
  mkAnalyzer (zerobyte_file_counter self) (known_hash_event_counter self)
    (unique_known_hash_counter self) c (add_source_attribute self)
    (query_batch_size self) (output self).

Definition set_settings (a : value) (b : Z) (self : Analyzer) : Analyzer :=
  mkAnalyzer (zerobyte_file_counter self) (known_hash_event_counter self)
    (unique_known_hash_counter self) (hashr_conn self) a (Some b)
    (output self).

Definition incr_zerobyte (self : Analyzer) : Analyzer :=
  mkAnalyzer (S (zerobyte_file_counter self)) (known_hash_event_counter self)
    (unique_known_hash_counter self) (hashr_conn self)
    (add_source_attribute self) (query_batch_size self) (output self).

Definition set_unique_known (n : nat) (self : Analyzer) : Analyzer :=
  mkAnalyzer (zerobyte_file_counter self) (known_hash_event_counter self)
    n (hashr_conn self) (add_source_attribute self) (query_batch_size self)
    (output self).

Definition set_output (o : Output) (self : Analyzer) : Analyzer :=
  mkAnalyzer (zerobyte_file_counter self) (known_hash_event_counter self)
    (unique_known_hash_counter self) (hashr_conn self)
    (add_source_attribute self) (query_batch_size self) o.

(** ** [connect_hashr] *)

(** The entries of [current_app.config] the analyzer reads, and what the
    database server answers. [HASHR_QUERY_BATCH_SIZE] is the entry when it is
    absent or holds an integer, the values [int()] accepts as they are; an
    entry that [int()] rejects makes [connect_hashr] raise before it checks
    the configuration, a path outside this model, as are the failures of the
    database library other than the refused connection. *)
Record Env : Type := mkEnv {
  HASHR_DB_USER : option string;
  HASHR_DB_PW : option string;
  HASHR_DB_ADDR : option string;
  HASHR_DB_PORT : option string;
  HASHR_DB_NAME : option string;
  HASHR_ADD_SOURCE_ATTRIBUTE : value;
  HASHR_QUERY_BATCH_SIZE : option Z;
  reachable : bool;
  database : Database
}.

Definition param_set (p : option string) : bool :=
  match p with
  | Some s => negb (String.eqb s "")
  | None => false
  end.

Definition is_bool (v : value) : bool :=
  match v with VBool _ => true | _ => false end.

Definition required_tables : list string :=
  ["samples"; "sources"; "samples_sources"].

Definition connect_hashr (self : Analyzer) (env : Env)
    : outcome Analyzer bool :=
  let self :=
    set_settings (HASHR_ADD_SOURCE_ATTRIBUTE env)
      (default DEFAULT_BATCH_SIZE (HASHR_QUERY_BATCH_SIZE env)) self in
  if negb (forallb id
       [param_set (HASHR_DB_USER env); param_set (HASHR_DB_PW env);
        param_set (HASHR_DB_ADDR env); param_set (HASHR_DB_PORT env);
        param_set (HASHR_DB_NAME env);
        is_bool (add_source_attribute self)])
  then Raise self ConfigError
  else if negb (reachable env) then Raise self ConnectionError
  else
    let self := set_conn (Some (mkEngine (database env) [] 0)) self in
    if negb (forallb (λ t, bool_decide (t ∈ table_names (database env)))
               required_tables)
    then Raise self MissingTablesError
    else Return self true.

(** ** [batch_hashes] *)

(** [range(start, stop, step)] for a positive step; [fuel] bounds the number
    of elements. *)
Fixpoint range_from (fuel i stop step : nat) : list nat :=
  match fuel with
  | 0 => []
  | S fuel' =>
      if decide (i < stop) then i :: range_from fuel' (i + step) stop step
      else []
  end.

(** [range(0, stop, step)]: a zero step is a [ValueError], a negative step
    gives the empty range. *)
Definition py_range (stop : nat) (step : Z) : result (list nat) :=
  if decide (step = 0)%Z then Err ValueError
  else if decide (step < 0)%Z then Ok []
  else Ok (range_from stop 0 stop (Z.to_nat step)).

(** [l[i:j]] for [0 <= i <= j]. *)
Definition slice {A} (l : list A) (i j : nat) : list A :=
  take (j - i) (drop i l).

(** The slices the generator yields, in order. *)
Definition batch_hashes (hash_list : list string) (batch_size : Z)
    : result (list (list string)) :=
  match py_range (length hash_list) batch_size with
  | Err e => Err e
  | Ok starts =>
      Ok ((λ i, slice hash_list i (i + Z.to_nat batch_size)) <$> starts)
  end.

(** ** [check_against_hashr] *)

(** [matching_hashes.setdefault(sample_hash, set()).add(source)] *)
Definition add_entry (matching_hashes : PyDict.t (gset string)) (entry : Row)
    : PyDict.t (gset string) :=
  PyDict.setdefault_update (sample_hash_of entry) ∅
    (λ s, s ∪ {[source_of entry]}) matching_hashes.

(** [for entry in results: ...] *)
Definition merge_results (matching_hashes : PyDict.t (gset string))
    (results : list Row) : PyDict.t (gset string) :=
  foldl add_entry matching_hashes results.

(** [for batch in self.batch_hashes(...)]: one query per batch, merged into
    [matching_hashes] before the next batch is queried. *)
Fixpoint query_batches (with_sources : bool) (eng : Engine)
    (matching_hashes : PyDict.t (gset string)) (batches : list (list string))
    : Engine * PyDict.t (gset string) :=
  match batches with
  | [] => (eng, matching_hashes)
  | batch :: rest =>
      let results := execute with_sources (db eng) batch in
      query_batches with_sources (log_query batch eng)
        (merge_results matching_hashes results) rest
  end.

Definition check_against_hashr (self : Analyzer) (sample_hashes : list string)
    : outcome Analyzer (PyDict.t (gset string)) :=
  match hashr_conn self with
  | None => Raise self UnboundEngineError
  | Some eng =>
      if negb (forallb (λ t, bool_decide (t ∈ table_names (db eng)))
                 required_tables)
      then Raise self KeyError
      else
        match query_batch_size self with
        | None => Raise self TypeError
        | Some size =>
            (* total_batches = ceil(len(sample_hashes) / size) *)
            if decide (size = 0)%Z then Raise self ZeroDivisionError
            else
              match batch_hashes sample_hashes size with
              | Err e => Raise self e
              | Ok batches =>
                  let '(eng, matching_hashes) :=
                    query_batches (truthy (add_source_attribute self)) eng
                      PyDict.empty batches in
                  Return (set_conn (Some (dispose eng)) self) matching_hashes
              end
        end
  end.

(** ** [annotate_event] *)

(** The [sources] argument: [False] or the provenance set of the hash. *)
Inductive sources_arg : Type :=
  | SourcesFalse
  | SourcesSet (s : gset string).

Definition sources_truthy (sources : sources_arg) : bool :=
  match sources with
  | SourcesFalse => false
  | SourcesSet s => negb (bool_decide (s = ∅))
  end.

(** [list(sources)]; the order Python gives the elements is not specified. *)
Definition sources_list (sources : sources_arg) : list string :=
  match sources with
  | SourcesFalse => []
  | SourcesSet s => elements s
  end.

Definition zerobyte_hash : string :=
  "e3b0c44298fc1c149afbf4c8996fb92427ae41e4649b934ca495991b7852b855".

Definition annotate_event (self : Analyzer) (hash_value : string)
    (sources : sources_arg) (event : Event) : Analyzer * Event :=
  let tags_container := ["known-hash"] in
  let '(tags_container, self, sources) :=
    if decide (hash_value = zerobyte_hash)
    then ((tags_container ++ ["zerobyte-file"])%list, incr_zerobyte self,
          SourcesFalse)
    else (tags_container, self, sources) in
  let event := add_tags tags_container event in
  let event :=
    if sources_truthy sources
    then add_attributes {["hashR_sample_sources" := sources_list sources]}
           event
    else event in
  (self, commit event).

(** ** The collection loop of [run] *)

Definition return_fields : list string :=
  ["hash_sha256"; "hash"; "sha256"; "sha256_hash"].

(** [hash_value = None; for key in return_fields: if key in
    event.source.keys(): hash_value = event.source.get(key); break] *)
Fixpoint first_field (fields : list string) (src : gmap string value)
    : value :=
  match fields with
  | [] => VNone
  | key :: rest =>
      match src !! key with
      | Some v => v
      | None => first_field rest src
      end
  end.

Inductive Warning : Type :=
  | NoMatchingField (src : gmap string value)
  | WrongLength (hash_value : value) (n : nat).

Record Collected : Type := mkCollected {
  total_event_counter : nat;
  error_hash_counter : nat;
  hash_events_dict : PyDict.t (list nat);
  warnings : list Warning
}.

Definition collect_start : Collected := mkCollected 0 0 PyDict.empty [].

(** One iteration of [for event in events]; [i] is the reference to the
    event object. A value without a length, or an unhashable one of length
    64, raises [TypeError]. *)
Definition collect_event (i : nat) (event : Event) (st : Collected)
    : result Collected :=
  let total := S (total_event_counter st) in
  let hash_value := first_field return_fields (source event) in
  if negb (truthy hash_value) then
    Ok (mkCollected total (S (error_hash_counter st)) (hash_events_dict st)
          (warnings st ++ [NoMatchingField (source event)])%list)
  else
    match py_len hash_value with
    | Err e => Err e
    | Ok n =>
        if negb (n =? 64)%nat then
          Ok (mkCollected total (S (error_hash_counter st))
                (hash_events_dict st)
                (warnings st ++ [WrongLength hash_value n])%list)
        else
          match hash_value with
          | VStr s =>
              Ok (mkCollected total (error_hash_counter st)
                    (PyDict.setdefault_update s [] (λ l, (l ++ [i])%list)
                       (hash_events_dict st))
                    (warnings st))
          | _ => Err TypeError
          end
    end.

Fixpoint collect_events (i : nat) (events : list Event) (st : Collected)
    : result Collected :=
  match events with
  | [] => Ok st
  | event :: rest =>
      match collect_event i event st with
      | Err e => Err e
      | Ok st' => collect_events (S i) rest st'
      end
  end.

(** ** The annotation loops of [run] *)

(** The objects [run] works on: the analyzer and the events of the stream. *)
Record World : Type := mkWorld {
  analyzer : Analyzer;
  heap : list Event
}.

(** [for event in hash_events_dict[sample_hash]: known_hash_counter += 1;
    self.annotate_event(sample_hash, sources, event)] *)
Fixpoint annotate_events (sample_hash : string) (sources : sources_arg)
    (refs : list nat) (w : World) (known_hash_counter : nat) : World * nat :=
  match refs with
  | [] => (w, known_hash_counter)
  | i :: rest =>
      match heap w !! i with
      | None => annotate_events sample_hash sources rest w known_hash_counter
      | Some event =>
          let '(self, event) :=
            annotate_event (analyzer w) sample_hash sources event in
          annotate_events sample_hash sources rest
            (mkWorld self (<[i := event]> (heap w))) (S known_hash_counter)
      end
  end.

(** The loop over [matching_hashes]; [arg] is what the branch passes as
    [sources]. [hash_events_dict[sample_hash]] raises [KeyError] on a key
    that is not in the dictionary. *)
Fixpoint annotate_matches (arg : gset string → sources_arg)
    (hash_events_dict : PyDict.t (list nat))
    (matches : list (string * gset string)) (w : World)
    (known_hash_counter : nat) : outcome World nat :=
  match matches with
  | [] => Return w known_hash_counter
  | (sample_hash, hashr_value) :: rest =>
      match PyDict.get sample_hash hash_events_dict with
      | None => Raise w KeyError
      | Some refs =>
          let '(w, known_hash_counter) :=
            annotate_events sample_hash (arg hashr_value) refs w
              known_hash_counter in
          annotate_matches arg hash_events_dict rest w known_hash_counter
      end
  end.

(** ** [run] *)

Definition no_hashes_summary : string :=
  "This timeline does not contain any fields with a sha256 hash.".

Definition str (n : nat) : string := pretty n.

Definition summary_text (total unique_known unique known zerobyte errors : nat)
    : string :=
  "Found a total of " +:+ str total +:+ " events that contain a "
  +:+ "sha256 hash value - " +:+ str unique_known +:+ " / "
  +:+ str unique +:+ " unique hashes known in hashR - "
  +:+ str known +:+ " events tagged - "
  +:+ str zerobyte +:+ " entries were tagged as zerobyte "
  +:+ "files - " +:+ str errors +:+ " events raised an error".

Definition newline : string := String (Ascii.ascii_of_nat 10) EmptyString.

Definition summary_markdown
    (total unique_known unique known zerobyte errors : nat) : string :=
  "Found a total of " +:+ str total +:+ " events that contain a "
  +:+ "sha256 hash value" +:+ newline +:+ "* " +:+ str unique_known +:+ " / "
  +:+ str unique +:+ " unique hashes known in hashR" +:+ newline
  +:+ "* " +:+ str known +:+ " events tagged" +:+ newline
  +:+ "* " +:+ str zerobyte +:+ " entries were tagged as zerobyte "
  +:+ "files" +:+ newline +:+ "* " +:+ str errors
  +:+ " events raised an error".

(** [run] returns [str(self.output)]; the rendering belongs to the analyzer
    interface, so the model returns the output object itself. *)
Definition run (self : Analyzer) (env : Env) (events : list Event)
    : outcome World Output :=
  match connect_hashr self env with
  | Raise self e => Raise (mkWorld self events) e
  | Return self _ =>
      match collect_events 0 events collect_start with
      | Err e => Raise (mkWorld self events) e
      | Ok st =>
          let hash_events_dict := hash_events_dict st in
          if (PyDict.len hash_events_dict <=? 0)%nat then
            let out :=
              mkOutput "SUCCESS" "NOTE" no_hashes_summary
                (result_markdown (output self)) in
            Return (mkWorld (set_output out self) events) out
          else
            match check_against_hashr self (PyDict.keys hash_events_dict) with
            | Raise self e => Raise (mkWorld self events) e
            | Return self matching_hashes =>
                let arg :=
                  if truthy (add_source_attribute self)
                  then SourcesSet else (λ _, SourcesFalse) in
                match
                  annotate_matches arg hash_events_dict
                    (PyDict.items matching_hashes) (mkWorld self events) 0
                with
                | Raise w e => Raise w e
                | Return w known_hash_counter =>
                    let self :=
                      set_unique_known (PyDict.len matching_hashes)
                        (analyzer w) in
                    let figures (render : nat → nat → nat → nat → nat → nat
                                          → string) :=
                      render (total_event_counter st)
                        (unique_known_hash_counter self)
                        (PyDict.len hash_events_dict) known_hash_counter
                        (zerobyte_file_counter self)
                        (error_hash_counter st) in
                    let out :=
                      mkOutput "SUCCESS" "NOTE" (figures summary_text)
                        (figures summary_markdown) in
                    Return (mkWorld (set_output out self) (heap w)) out
                end
            end
      end
  end.

(** ** Notions used to state the properties *)

(** The rows a query ranges over before its [in_(batch)] filter. *)
Definition all_rows (with_sources : bool) (db : Database) : list Row :=
  if with_sources then
    ss ← samples_sources db;
    s ← sources db;
    if bool_decide (ss.2 = src_sha256 s)
    then [RowJoin ss.1 ss.2 (sourceid s) (reponame s)]
    else []
  else RowSample <$> samples db.

(** The provenance set a MatchResult holds for a hash (empty when the hash is
    not a key). *)
Definition provenance (m : gmap string (gset string)) (h : string)
    : gset string :=
  default ∅ (m !! h).

(** The MatchResult of one query over [hashes], without batching. *)
Definition single_query (with_sources : bool) (db : Database)
    (hashes : list string) : PyDict.t (gset string) :=
  merge_results PyDict.empty (execute with_sources db hashes).

(** An analyzer whose engine is connected to a database with the required
    tables. *)
Definition connected (self : Analyzer) (eng : Engine) : Prop :=
  hashr_conn self = Some eng
  ∧ forallb (λ t, bool_decide (t ∈ table_names (db eng))) required_tables
    = true.

Definition with_batch_size (size : Z) (self : Analyzer) : Analyzer :=
  set_settings (add_source_attribute self) size self.

(** ** The scenario of the spec

    Three events carrying the hashes H1, H1 and H2; hashR knows H1 from the
    source [src1] of the repository [imageA]. *)

Definition H1 : string :=
  "a1a1a1a1a1a1a1a1a1a1a1a1a1a1a1a1a1a1a1a1a1a1a1a1a1a1a1a1a1a1a1a1".

Definition H2 : string :=
  "b2b2b2b2b2b2b2b2b2b2b2b2b2b2b2b2b2b2b2b2b2b2b2b2b2b2b2b2b2b2b2b2".

Definition event_with (field : string) (v : value) : Event :=
  mkEvent {[field := v]} ∅ ∅ 0.

Definition scenario_events : list Event :=
  [event_with "sha256" (VStr H1); event_with "sha256" (VStr H1);
   event_with "sha256" (VStr H2)].

(** Streams in which the second event's [hash] field holds the number 7, a
    list of 64 elements, and the one-character string [7]. *)
Definition unsized_events : list Event :=
  [event_with "sha256" (VStr H1); event_with "hash" (VInt 7)].

Definition unhashable_events : list Event :=
  [event_with "sha256" (VStr H1);
   event_with "hash" (VList (replicate 64 (VStr "a")))].

Definition short_hash_events : list Event :=
  [event_with "sha256" (VStr H1); event_with "hash" (VStr "7")].

Definition scenario_db : Database :=
  mkDatabase ["samples"; "sources"; "samples_sources"] [H1]
    [mkSourceRow "5c1" (CStr "src1") "imageA"] [(H1, "5c1")].

Definition scenario_env (add_sources : bool) (size : option Z) : Env :=
  mkEnv (Some "hashr") (Some "secret") (Some "127.0.0.1") (Some "5432")
    (Some "hashr") (VBool add_sources) size true scenario_db.

Definition blank_output : Output := mkOutput "" "" "" "".

Definition scenario_engine : Engine := mkEngine scenario_db [] 0.

(** The analyzer as [connect_hashr] leaves it in the scenario. *)
Definition scenario_analyzer (add_sources : bool) : Analyzer :=
  mkAnalyzer 0 0 0 (Some scenario_engine) (VBool add_sources)
    (Some DEFAULT_BATCH_SIZE) blank_output.

(** A database in which H2 is a known sample without any provenance row. *)
Definition orphan_db : Database :=
  mkDatabase ["samples"; "sources"; "samples_sources"] [H1; H2]
    [mkSourceRow "5c1" (CStr "src1") "imageA"] [(H1, "5c1")].

Definition orphan_analyzer (add_sources : bool) : Analyzer :=
  mkAnalyzer 0 0 0 (Some (mkEngine orphan_db [] 0)) (VBool add_sources)
    (Some DEFAULT_BATCH_SIZE) blank_output.

(** An analyzer with the provenance switch and the batch size set. *)
Definition configured (add_sources : bool) (size : Z) (self : Analyzer)
    : Analyzer :=
  set_settings (VBool add_sources) size self.

(** The state the collection loop reaches when it files event [i] under the
    key [s]. *)
Definition filed (i : nat) (s : string) (st : Collected) : Collected :=
  mkCollected (S (total_event_counter st)) (error_hash_counter st)
    (PyDict.setdefault_update s [] (λ l, l ++ [i]) (hash_events_dict st))
    (warnings st).

(** The state the collection loop reaches when it rejects an event with the
    warning [w]. *)
Definition rejected (w : Warning) (st : Collected) : Collected :=
  mkCollected (S (total_event_counter st)) (S (error_hash_counter st))
    (hash_events_dict st) (warnings st ++ [w]).

(** [key] is the first of [fields] present in [src], with value [v]. *)
Definition first_present (fields : list string) (src : gmap string value)
    (key : string) (v : value) : Prop :=
  ∃ pre post, fields = pre ++ key :: post
              ∧ (∀ k, k ∈ pre → src !! k = None)
              ∧ src !! key = Some v.

(** An event the collection loop rejects: its candidate value is falsy, or
    has a length other than 64. *)
Definition no_hash (event : Event) : Prop :=
  let v := first_field return_fields (source event) in
  truthy v = false ∨ ∃ n, py_len v = Ok n ∧ n ≠ 64.

(** The number of [dispose()] calls the analyzer's engine has seen. *)
Definition dispose_count (self : Analyzer) : option nat :=
  disposed <$> hashr_conn self.

(** What an event shows after the run: tags, attributes, commits. *)
Definition annotation (e : Event)
    : gset string * gmap string (list string) * nat :=
  (tags e, attributes e, commits e).

(** The key under which the collection loop files an event, if it files
    it. *)
Definition hash_key (event : Event) : option string :=
  match first_field return_fields (source event) with
  | VStr s => if bool_decide (String.length s = 64) then Some s else None
  | _ => None
  end.

(** The references the collection loop appends to the list of [k] while it
    scans [events], the first of which has reference [i]. *)
Fixpoint refs_of (i : nat) (events : list Event) (k : string) : list nat :=
  match events with
  | [] => []
  | e :: rest =>
      (if bool_decide (hash_key e = Some k) then [i] else [])
      ++ refs_of (S i) rest k
  end.

(** How often the reference [j] occurs in a list of references. *)
Definition occ (j : nat) (refs : list nat) : nat :=
  length (filter (λ i, i = j) refs).

(** How often the annotation loop visits the reference [j]. *)
Fixpoint visits (j : nat) (hash_events_dict : PyDict.t (list nat))
    (matches : list (string * gset string)) : nat :=
  match matches with
  | [] => 0
  | (h, _) :: rest =>
      occ j (default [] (PyDict.get h hash_events_dict))
      + visits j hash_events_dict rest
  end.

(** The hash keys of the MatchResult that [run] obtains (none when it does
    not get to one). *)
Definition matched_keys (self : Analyzer) (env : Env) (events : list Event)
    : list string :=
  match connect_hashr self env with
  | Raise _ _ => []
  | Return self _ =>
      match collect_events 0 events collect_start with
      | Err _ => []
      | Ok st =>
          if PyDict.len (hash_events_dict st) <=? 0 then []
          else
            match
              check_against_hashr self (PyDict.keys (hash_events_dict st))
            with
            | Raise _ _ => []
            | Return _ matching_hashes => PyDict.keys matching_hashes
            end
      end
  end.

Definition is_matched (keys : list string) (event : Event) : bool :=
  match hash_key event with
  | Some h => bool_decide (h ∈ keys)
  | None => false
  end.


(** ** Notions used to state the further properties *)

(** [ceil(n / step)] on natural numbers, for a positive [step]. *)
Definition ceil_div (n step : nat) : nat := (n + step - 1) / step.

(** The provenance descriptor built from a row of [sources]. *)
Definition descriptor (s : SourceRow) : string :=
  match sourceid s with
  | CList ids => reponame s +:+ ":" +:+ join_semicolon ids
  | CStr id => reponame s +:+ ":" +:+ id
  end.

(** What hashR knows of a hash: with provenance tracking, the rows of
    [samples_sources] joined with [sources]; without, the [samples] table. *)
Definition known_with_sources (db : Database) (h : string) (s : SourceRow)
    : Prop :=
  (h, src_sha256 s) ∈ samples_sources db ∧ s ∈ sources db.

Definition known (with_sources : bool) (db : Database) (h : string) : Prop :=
  if with_sources then ∃ s, known_with_sources db h s
  else h ∈ samples db.

(** The database [orphan_db] with its rows in another order and some of
    them repeated. *)
Definition orphan_db_reordered : Database :=
  mkDatabase ["samples"; "sources"; "samples_sources"] [H2; H1; H2]
    [mkSourceRow "5c1" (CStr "src1") "imageA"] [(H1, "5c1"); (H1, "5c1")].

(** The connection settings of [timesketch.conf] are all given. *)
Definition config_complete (env : Env) : Prop :=
  param_set (HASHR_DB_USER env) = true
  ∧ param_set (HASHR_DB_PW env) = true
  ∧ param_set (HASHR_DB_ADDR env) = true
  ∧ param_set (HASHR_DB_PORT env) = true
  ∧ param_set (HASHR_DB_NAME env) = true
  ∧ is_bool (HASHR_ADD_SOURCE_ATTRIBUTE env) = true.

(** The number of events filed in a HashIndex. *)
Definition filed_count (hash_events_dict : PyDict.t (list nat)) : nat :=
  sum_list (length <$> hash_events_dict.*2).

(** A server whose database lacks the [sources] table. *)
Definition incomplete_env : Env :=
  mkEnv (Some "hashr") (Some "secret") (Some "127.0.0.1") (Some "5432")
    (Some "hashr") (VBool true) None true
    (mkDatabase ["samples"; "samples_sources"] [H1] [] []).

(** An event of the collection loop raises: its candidate value is truthy
    and either has no length or is an (unhashable) list of length 64. *)
Definition aborting (event : Event) : Prop :=
  let v := first_field return_fields (source event) in
  truthy v = true
  ∧ (py_len v = Err TypeError ∨ ∃ l, v = VList l ∧ length l = 64).

(** What the annotation loops of [run] pass as [sources]: the provenance set
    when tracking is enabled, [False] otherwise. *)
Definition sources_of (self : Analyzer) : gset string → sources_arg :=
  if truthy (add_source_attribute self) then SourcesSet
  else (λ _, SourcesFalse).

(** The event a run leaves in the place of [e] when [m] is the MatchResult:
    annotated once under its hash key when that key is in [m], as it was
    otherwise. *)
Definition annotated (self : Analyzer) (m : PyDict.t (gset string))
    (e : Event) : Event :=
  match hash_key e with
  | Some k =>
      match PyDict.get k m with
      | Some s => (annotate_event self k (sources_of self s) e).2
      | None => e
      end
  | None => e
  end.

(** The number of events filed under the keys of [matches]. *)
Definition tagged_count (hash_events_dict : PyDict.t (list nat))
    (matches : list (string * gset string)) : nat :=
  sum_list
    ((λ p, length (default [] (PyDict.get p.1 hash_events_dict)))
       <$> matches).

(** The number of events filed under the digest of the empty input, when it
    is a key of [matches]. *)
Definition zerobyte_count (hash_events_dict : PyDict.t (list nat))
    (matches : list (string * gset string)) : nat :=
  match PyDict.get zerobyte_hash matches with
  | Some _ => length (default [] (PyDict.get zerobyte_hash hash_events_dict))
  | None => 0
  end.

(** The number of events carrying the digest of the empty input, when hashR
    knows it. *)
Definition zerobyte_events (keys : list string) (events : list Event) : nat :=
  if bool_decide (zerobyte_hash ∈ keys)
  then length (filter (λ e, hash_key e = Some zerobyte_hash) events)
  else 0.

(** * Properties *)

(** ** Dictionaries *)

Section pydict.
Context {V : Type}.
Implicit Types (d : PyDict.t V) (k : string).

Lemma get_to_gmap k d : PyDict.get k d = PyDict.to_gmap d !! k.
Proof.
  induction d as [|[k' v] d IH]; simpl; [by rewrite lookup_empty|].
  unfold PyDict.to_gmap in *. simpl. case_decide as Hk.
  - subst. by rewrite lookup_insert_eq.
  - by rewrite lookup_insert_ne.
Qed.

Lemma to_gmap_setdefault_update k dflt (f : V → V) d :
  PyDict.to_gmap (PyDict.setdefault_update k dflt f d)
  = <[k := f (default dflt (PyDict.to_gmap d !! k))]> (PyDict.to_gmap d).
Proof.
  unfold PyDict.to_gmap.
  induction d as [|[k' v] d IH]; simpl; [done|].
  case_decide as Hk.
  - subst. simpl. by rewrite lookup_insert_eq, insert_insert_eq.
  - simpl. rewrite IH. rewrite lookup_insert_ne by naive_solver.
    apply insert_insert_ne. naive_solver.
Qed.

Lemma keys_setdefault_update k dflt (f : V → V) d :
  PyDict.keys (PyDict.setdefault_update k dflt f d)
  = if decide (k ∈ PyDict.keys d) then PyDict.keys d
    else (PyDict.keys d ++ [k])%list.
Proof.
  unfold PyDict.keys.
  induction d as [|[k' v] d IH]; csimpl; [done|].
  destruct (decide (k = k')) as [->|Hk]; csimpl.
  - rewrite decide_True by left. done.
  - rewrite IH. destruct (decide (k ∈ d.*1)) as [Hin|Hin].
    + rewrite decide_True by (by right). done.
    + rewrite decide_False; [done|]. intros [?|?]%elem_of_cons; done.
Qed.

Lemma NoDup_keys_setdefault_update k dflt (f : V → V) d :
  NoDup (PyDict.keys d) →
  NoDup (PyDict.keys (PyDict.setdefault_update k dflt f d)).
Proof.
  intros Hd. rewrite keys_setdefault_update. case_decide as Hin; [done|].
  apply NoDup_app. split_and!; [done| |apply NoDup_singleton].
  intros x Hx ->%list_elem_of_singleton. done.
Qed.

Lemma elem_of_keys k d : k ∈ PyDict.keys d ↔ is_Some (PyDict.to_gmap d !! k).
Proof.
  unfold PyDict.keys, PyDict.to_gmap.
  rewrite <-elem_of_dom, dom_list_to_map_L, elem_of_list_to_set. done.
Qed.
End pydict.

(** ** Batches *)

Lemma concat_range_from {A} (l : list A) (step fuel i : nat) :
  1 ≤ step → length l - i ≤ fuel →
  concat ((λ i, slice l i (i + step)) <$> range_from fuel i (length l) step)
  = drop i l.
Proof.
  intros Hstep. revert i.
  induction fuel as [|fuel IH]; intros i Hfuel; simpl.
  - symmetry. apply drop_ge. lia.
  - case_decide as Hi; csimpl.
    + rewrite IH by lia. unfold slice.
      replace (i + step - i) with step by lia.
      rewrite <-drop_drop. apply take_drop.
    + symmetry. apply drop_ge. lia.
Qed.

Lemma batch_hashes_concat (hash_list : list string) (batch_size : Z) :
  (1 ≤ batch_size)%Z →
  ∃ batches, batch_hashes hash_list batch_size = Ok batches
             ∧ concat batches = hash_list.
Proof.
  intros Hsize. unfold batch_hashes, py_range.
  rewrite decide_False by lia. rewrite decide_False by lia.
  eexists. split; [done|].
  rewrite concat_range_from by lia. done.
Qed.

Lemma batch_hashes_full (hash_list : list string) :
  hash_list ≠ [] →
  batch_hashes hash_list (Z.of_nat (length hash_list)) = Ok [hash_list].
Proof.
  intros Hne. unfold batch_hashes, py_range.
  destruct hash_list as [|h l]; [done|].
  rewrite decide_False by (simpl; lia). rewrite decide_False by (simpl; lia).
  rewrite Nat2Z.id. f_equal. simpl length. cbn [range_from].
  rewrite decide_True by lia. rewrite Nat.add_0_l.
  assert (range_from (length l) (S (length l)) (S (length l)) (S (length l))
          = []) as ->.
  { destruct (length l); simpl; [done|]. by rewrite decide_False by lia. }
  csimpl. f_equal. unfold slice. rewrite drop_0.
  apply take_ge. simpl. lia.
Qed.

Lemma batch_hashes_subseteq (hash_list : list string) (batch_size : Z)
    batches batch h :
  batch_hashes hash_list batch_size = Ok batches →
  batch ∈ batches → h ∈ batch → h ∈ hash_list.
Proof.
  unfold batch_hashes. destruct (py_range _ _) as [starts|]; [|done].
  intros [= <-] (i & -> & _)%list_elem_of_fmap Hh. unfold slice in Hh.
  by apply (subseteq_drop i), (subseteq_take (i + Z.to_nat batch_size - i)).
Qed.

Lemma elem_of_concat {A} (x : A) (ls : list (list A)) :
  x ∈ concat ls ↔ ∃ l, x ∈ l ∧ l ∈ ls.
Proof.
  induction ls as [|l ls IH]; simpl.
  - split; [by intros ?%elem_of_nil|]. by intros (? & _ & ?%elem_of_nil).
  - rewrite elem_of_app, IH. split.
    + intros [?|(l' & ? & ?)]; [exists l|exists l']; split; try done;
        [left|by right].
    + intros (l' & ? & [-> | ?]%elem_of_cons); [by left|right; eauto].
Qed.

(** ** Merging query results *)

Lemma match_result_eq (m1 m2 : gmap string (gset string)) :
  (∀ h, is_Some (m1 !! h) ↔ is_Some (m2 !! h)) →
  (∀ h x, x ∈ provenance m1 h ↔ x ∈ provenance m2 h) →
  m1 = m2.
Proof.
  intros Hkeys Hsets. apply map_eq. intros h.
  specialize (Hkeys h). specialize (Hsets h). unfold provenance in Hsets.
  destruct (m1 !! h) as [s1|], (m2 !! h) as [s2|]; simpl in *.
  - f_equal. apply set_eq. done.
  - destruct Hkeys as [[? [=]] _]. eauto.
  - destruct Hkeys as [_ [? [=]]]. eauto.
  - done.
Qed.

Lemma elem_of_execute with_sources db batch entry :
  entry ∈ execute with_sources db batch
  ↔ entry ∈ all_rows with_sources db ∧ sample_hash_of entry ∈ batch.
Proof.
  unfold execute, all_rows, select_join, select_samples.
  destruct with_sources.
  - rewrite !list_elem_of_bind. split.
    + intros (ss & (s & He & Hs)%list_elem_of_bind & Hss).
      case_bool_decide as Hc; [|by apply elem_of_nil in He].
      apply list_elem_of_singleton in He as ->. destruct Hc as [Hc Hin].
      split; [|done]. exists ss. split; [|done].
      apply list_elem_of_bind. exists s. split; [|done].
      rewrite bool_decide_true by done. by apply list_elem_of_singleton.
    + intros [(ss & (s & He & Hs)%list_elem_of_bind & Hss) Hin].
      case_bool_decide as Hc; [|by apply elem_of_nil in He].
      apply list_elem_of_singleton in He as ->. simpl in Hin.
      exists ss. split; [|done]. apply list_elem_of_bind.
      exists s. split; [|done].
      rewrite bool_decide_true by done. by apply list_elem_of_singleton.
  - rewrite !list_elem_of_fmap. split.
    + intros (h & -> & [Hb Hs]%list_elem_of_filter). eauto.
    + intros [(h & -> & Hs) Hb]. exists h. split; [done|].
      by apply list_elem_of_filter.
Qed.

Lemma to_gmap_add_entry m entry :
  PyDict.to_gmap (add_entry m entry)
  = <[sample_hash_of entry :=
        provenance (PyDict.to_gmap m) (sample_hash_of entry)
        ∪ {[source_of entry]}]> (PyDict.to_gmap m).
Proof. unfold add_entry. by rewrite to_gmap_setdefault_update. Qed.

Lemma merge_results_keys m results h :
  is_Some (PyDict.to_gmap (merge_results m results) !! h)
  ↔ is_Some (PyDict.to_gmap m !! h)
    ∨ ∃ entry, entry ∈ results ∧ sample_hash_of entry = h.
Proof.
  unfold merge_results. revert m.
  induction results as [|e results IH]; intros m; simpl.
  - split; [by left|]. intros [?|(? & []%elem_of_nil & _)]. done.
  - rewrite IH, to_gmap_add_entry. rewrite lookup_insert_is_Some. split.
    + intros [[?|[_ ?]]|(e' & ? & ?)].
      * right. exists e. split; [left|done].
      * by left.
      * right. exists e'. split; [by right|done].
    + intros [?|(e' & [-> | ?]%elem_of_cons & ?)].
      * left. destruct (decide (sample_hash_of e = h)); eauto.
      * left. by left.
      * right. eauto.
Qed.

Lemma merge_results_provenance m results h x :
  x ∈ provenance (PyDict.to_gmap (merge_results m results)) h
  ↔ x ∈ provenance (PyDict.to_gmap m) h
    ∨ ∃ entry, entry ∈ results ∧ sample_hash_of entry = h
               ∧ source_of entry = x.
Proof.
  unfold merge_results. revert m.
  induction results as [|e results IH]; intros m; simpl.
  - split; [by left|]. intros [?|(? & []%elem_of_nil & _)]. done.
  - rewrite IH, to_gmap_add_entry. unfold provenance at 1.
    destruct (decide (sample_hash_of e = h)) as [<-|Hne].
    + rewrite lookup_insert_eq. simpl. rewrite elem_of_union, elem_of_singleton.
      split.
      * intros [[? | ->]|(e' & ? & ? & ?)]; [by left| |].
        -- right. exists e. split_and!; [left|done|done].
        -- right. exists e'. split_and!; [by right|done|done].
      * intros [?|(e' & [-> | ?]%elem_of_cons & ? & ?)]; [by left; left| |].
        -- left. by right.
        -- right. eauto.
    + rewrite lookup_insert_ne by done. fold (provenance (PyDict.to_gmap m) h).
      split.
      * intros [?|(e' & ? & ? & ?)]; [by left|].
        right. exists e'. split_and!; [by right|done|done].
      * intros [?|(e' & [-> | ?]%elem_of_cons & ? & ?)]; [by left|done|].
        right. eauto.
Qed.

Lemma db_query_batches with_sources eng m batches :
  db (query_batches with_sources eng m batches).1 = db eng.
Proof.
  revert eng m. induction batches as [|b batches IH]; intros eng m; simpl;
    [done|]. by rewrite IH.
Qed.

Lemma query_batches_keys with_sources eng m batches h :
  is_Some (PyDict.to_gmap (query_batches with_sources eng m batches).2 !! h)
  ↔ is_Some (PyDict.to_gmap m !! h)
    ∨ ∃ batch entry, batch ∈ batches
        ∧ entry ∈ execute with_sources (db eng) batch
        ∧ sample_hash_of entry = h.
Proof.
  revert eng m. induction batches as [|b batches IH]; intros eng m; simpl.
  - split; [by left|]. intros [?|(? & ? & []%elem_of_nil & _)]. done.
  - rewrite IH, merge_results_keys. simpl. split.
    + intros [[?|(e & ? & ?)]|(b' & e & ? & ? & ?)]; [by left| |].
      * right. exists b, e. split_and!; [left|done|done].
      * right. exists b', e. split_and!; [by right|done|done].
    + intros [?|(b' & e & [-> | ?]%elem_of_cons & ? & ?)]; [by left; left| |].
      * left. right. eauto.
      * right. eauto.
Qed.

Lemma query_batches_provenance with_sources eng m batches h x :
  x ∈ provenance
        (PyDict.to_gmap (query_batches with_sources eng m batches).2) h
  ↔ x ∈ provenance (PyDict.to_gmap m) h
    ∨ ∃ batch entry, batch ∈ batches
        ∧ entry ∈ execute with_sources (db eng) batch
        ∧ sample_hash_of entry = h ∧ source_of entry = x.
Proof.
  revert eng m. induction batches as [|b batches IH]; intros eng m; simpl.
  - split; [by left|]. intros [?|(? & ? & []%elem_of_nil & _)]. done.
  - rewrite IH, merge_results_provenance. simpl. split.
    + intros [[?|(e & ? & ? & ?)]|(b' & e & ? & ? & ? & ?)]; [by left| |].
      * right. exists b, e. split_and!; [left|done|done|done].
      * right. exists b', e. split_and!; [by right|done|done|done].
    + intros [?|(b' & e & [-> | ?]%elem_of_cons & ? & ? & ?)];
        [by left; left| |].
      * left. right. eauto.
      * right. exists b', e. eauto.
Qed.

(** The MatchResult only depends on which hashes occur in some batch. *)
Lemma query_batches_ext with_sources eng eng' batches batches' :
  db eng = db eng' →
  (∀ h, h ∈ concat batches ↔ h ∈ concat batches') →
  PyDict.to_gmap (query_batches with_sources eng PyDict.empty batches).2
  = PyDict.to_gmap
      (query_batches with_sources eng' PyDict.empty batches').2.
Proof.
  intros Hdb Hsame.
  assert (∀ (P : Row → Prop) bs1 bs2 e1 e2, db e1 = db e2 →
    (∀ h, h ∈ concat bs1 → h ∈ concat bs2) →
    (∃ batch entry, batch ∈ bs1 ∧ entry ∈ execute with_sources (db e1) batch
       ∧ P entry) →
    (∃ batch entry, batch ∈ bs2 ∧ entry ∈ execute with_sources (db e2) batch
       ∧ P entry)) as Hmove.
  { intros P bs1 bs2 e1 e2 He Hsub (b & e & Hb & [Hrow Hin]%elem_of_execute & HP).
    assert (sample_hash_of e ∈ concat bs2) as (b' & Hin' & Hb')%elem_of_concat.
    { apply Hsub. apply elem_of_concat. eauto. }
    exists b', e. split_and!; [done| |done].
    apply elem_of_execute. by rewrite <-He. }
  apply match_result_eq.
  - intros h. rewrite !query_batches_keys. split.
    + intros [?|H]; [by left|right].
      by apply (Hmove (λ e, sample_hash_of e = h) batches batches' eng eng');
        [|intros; apply Hsame|].
    + intros [?|H]; [by left|right].
      by apply (Hmove (λ e, sample_hash_of e = h) batches' batches eng' eng);
        [|intros; apply Hsame|].
  - intros h x. rewrite !query_batches_provenance. split.
    + intros [?|H]; [by left|right].
      by apply (Hmove (λ e, sample_hash_of e = h ∧ source_of e = x)
                  batches batches' eng eng'); [|intros; apply Hsame|].
    + intros [?|H]; [by left|right].
      by apply (Hmove (λ e, sample_hash_of e = h ∧ source_of e = x)
                  batches' batches eng' eng); [|intros; apply Hsame|].
Qed.

(** ** [check_against_hashr] *)

Lemma check_against_hashr_connected self eng size hashes batches :
  connected self eng → query_batch_size self = Some size → size ≠ 0%Z →
  batch_hashes hashes size = Ok batches →
  check_against_hashr self hashes
  = Return
      (set_conn
         (Some (dispose (query_batches (truthy (add_source_attribute self))
                           eng PyDict.empty batches).1)) self)
      (query_batches (truthy (add_source_attribute self)) eng PyDict.empty
         batches).2.
Proof.
  intros [Hconn Htables] Hsize Hnz Hbatches. unfold check_against_hashr.
  rewrite Hconn, Htables, Hsize. simpl. rewrite decide_False by done.
  rewrite Hbatches. by destruct (query_batches _ _ _ _).
Qed.

Lemma connected_with_batch_size self eng size :
  connected self eng → connected (with_batch_size size self) eng.
Proof. by intros [??]. Qed.

(** C1: for a list of distinct hash keys and a batch size of at least 1, the
    slices of [batch_hashes] concatenate to the list; [check_against_hashr]
    returns a MatchResult equal (as a dictionary) to the one of a single
    query over the whole list, to the one obtained with the batch size set to
    the size of the list, and to the one obtained by querying the batches in
    any other order. *)
Theorem batching_invariant (self : Analyzer) (eng : Engine)
    (hashes : list string) (size : Z) :
  NoDup hashes → (1 ≤ size)%Z → connected self eng →
  let with_sources := truthy (add_source_attribute self) in
  ∃ batches self' m,
    batch_hashes hashes size = Ok batches
    ∧ concat batches = hashes
    ∧ check_against_hashr (with_batch_size size self) hashes = Return self' m
    ∧ PyDict.to_gmap m
      = PyDict.to_gmap (single_query with_sources (db eng) hashes)
    ∧ (hashes ≠ [] →
       ∃ self'' m',
         batch_hashes hashes (Z.of_nat (length hashes)) = Ok [hashes]
         ∧ check_against_hashr
             (with_batch_size (Z.of_nat (length hashes)) self) hashes
           = Return self'' m'
         ∧ PyDict.to_gmap m' = PyDict.to_gmap m)
    ∧ (∀ batches', batches' ≡ₚ batches →
       PyDict.to_gmap
         (query_batches with_sources eng PyDict.empty batches').2
       = PyDict.to_gmap m).
Proof.
  intros _ Hsize Hconn with_sources.
  destruct (batch_hashes_concat hashes size Hsize) as (batches & Hb & Hcat).
  eexists batches, _, _. split_and!; [done|done| | | |].
  - by apply (check_against_hashr_connected _ eng size _ batches);
      [apply connected_with_batch_size| |lia|].
  - unfold single_query.
    change (merge_results PyDict.empty (execute with_sources (db eng) hashes))
      with (query_batches with_sources eng PyDict.empty [hashes]).2.
    apply query_batches_ext; [done|]. intros h. rewrite Hcat. simpl.
    by rewrite app_nil_r.
  - intros Hne. eexists _, _. split_and!; [by apply batch_hashes_full| |].
    + apply (check_against_hashr_connected _ eng (Z.of_nat (length hashes))
               _ [hashes]);
        [by apply connected_with_batch_size|done| |by apply batch_hashes_full].
      destruct hashes; [done|simpl; lia].
    + apply query_batches_ext; [done|]. intros h. rewrite Hcat. simpl.
      by rewrite app_nil_r.
  - intros batches' Hperm. apply query_batches_ext; [done|].
    intros h. rewrite !elem_of_concat. setoid_rewrite Hperm. done.
Qed.

Lemma batching_invariant_witness :
  NoDup [H1; H2] ∧ (1 ≤ 1)%Z ∧ connected (scenario_analyzer true) scenario_engine
  ∧ ∃ batches self' m,
      batch_hashes [H1; H2] 1 = Ok batches
      ∧ concat batches = [H1; H2]
      ∧ check_against_hashr (with_batch_size 1 (scenario_analyzer true))
          [H1; H2] = Return self' m
      ∧ PyDict.to_gmap m
        = PyDict.to_gmap (single_query true scenario_db [H1; H2]).
Proof.
  assert (NoDup [H1; H2]) as Hnd.
  { apply NoDup_cons. split; [|apply NoDup_singleton].
    intros H%list_elem_of_singleton. discriminate H. }
  assert (connected (scenario_analyzer true) scenario_engine) as Hc.
  { split; reflexivity. }
  split_and!; [done|lia|done|].
  destruct (batching_invariant (scenario_analyzer true) scenario_engine
              [H1; H2] 1 Hnd ltac:(lia) Hc)
    as (batches & self' & m & ? & ? & ? & ? & _).
  by exists batches, self', m.
Defined.

Lemma check_against_hashr_Return self hashes self' m :
  check_against_hashr self hashes = Return self' m →
  ∃ eng size batches,
    connected self eng ∧ query_batch_size self = Some size
    ∧ batch_hashes hashes size = Ok batches
    ∧ self' = set_conn
                (Some (dispose (query_batches
                                  (truthy (add_source_attribute self)) eng
                                  PyDict.empty batches).1)) self
    ∧ m = (query_batches (truthy (add_source_attribute self)) eng
             PyDict.empty batches).2.
Proof.
  unfold check_against_hashr. intros Hret.
  destruct (hashr_conn self) as [eng|] eqn:Hconn; [|done].
  destruct (forallb _ required_tables) eqn:Htables; [|done]. simpl in Hret.
  destruct (query_batch_size self) as [size|]; [|done].
  case_decide; [done|].
  destruct (batch_hashes hashes size) as [batches|] eqn:Hb; [|done].
  destruct (query_batches _ _ _ _) as [eng' m'] eqn:Hq.
  injection Hret as <- <-. exists eng, size, batches.
  rewrite Hq. by split_and!.
Qed.

Lemma check_against_hashr_keys self hashes self' m eng h :
  check_against_hashr self hashes = Return self' m →
  hashr_conn self = Some eng →
  h ∈ PyDict.keys m →
  h ∈ hashes
  ∧ ∃ entry, entry ∈ all_rows (truthy (add_source_attribute self)) (db eng)
             ∧ sample_hash_of entry = h.
Proof.
  intros (eng' & size & batches & [Hc _] & _ & Hb & _ & ->)
    %check_against_hashr_Return Hconn.
  rewrite Hc in Hconn. injection Hconn as ->.
  rewrite elem_of_keys, query_batches_keys.
  intros [[? [=]]|(batch & entry & Hbatch & [Hrow Hin]%elem_of_execute & <-)].
  split; [|by eauto]. by eapply batch_hashes_subseteq.
Qed.

(** ** The zero-length-file rule *)

(** C2: a call of [annotate_event] with the SHA-256 of the empty input tags
    the event [known-hash] and [zerobyte-file], increments the zero-byte
    counter by one and leaves the event's attributes as they were, whatever
    [sources] holds; the event is committed once. *)
Theorem zerobyte_rule (self : Analyzer) (sources : sources_arg)
    (event : Event) :
  zerobyte_hash
  = "e3b0c44298fc1c149afbf4c8996fb92427ae41e4649b934ca495991b7852b855"
  ∧ tags (annotate_event self zerobyte_hash sources event).2
    = tags event ∪ {["known-hash"; "zerobyte-file"]}
  ∧ zerobyte_file_counter (annotate_event self zerobyte_hash sources event).1
    = S (zerobyte_file_counter self)
  ∧ attributes (annotate_event self zerobyte_hash sources event).2
    = attributes event
  ∧ commits (annotate_event self zerobyte_hash sources event).2
    = S (commits event).
Proof.
  unfold annotate_event. rewrite decide_True by done. simpl.
  by split_and!.
Qed.

(** For any other hash the provenance set, when there is one, is attached. *)
Lemma annotate_event_other self hash_value sources event :
  hash_value ≠ zerobyte_hash →
  annotate_event self hash_value sources event
  = (self,
     commit
       ((if sources_truthy sources
         then add_attributes
                {["hashR_sample_sources" := sources_list sources]}
         else id) (add_tags ["known-hash"] event))).
Proof.
  intros Hne. unfold annotate_event. rewrite decide_False by done.
  by destruct (sources_truthy sources).
Qed.

(** ** Provenance tracking disabled *)

(** C3, as the spec states it, fails: with tracking disabled a matched hash
    maps to the set holding the sentinel, not to the empty set. *)
Lemma empty_provenance_counterexample :
  ¬ (∀ self hashes self' m h s,
       truthy (add_source_attribute self) = false →
       check_against_hashr self hashes = Return self' m →
       PyDict.get h m = Some s → s = ∅).
Proof.
  intros Hclaim.
  assert (check_against_hashr (scenario_analyzer false) [H1; H2]
          = Return
              (set_conn
                 (Some (dispose (query_batches false scenario_engine
                                   PyDict.empty [[H1; H2]]).1))
                 (scenario_analyzer false))
              (query_batches false scenario_engine PyDict.empty
                 [[H1; H2]]).2) as Hrun.
  { apply (check_against_hashr_connected (scenario_analyzer false)
             scenario_engine DEFAULT_BATCH_SIZE [H1; H2] [[H1; H2]]);
      [split; reflexivity|reflexivity|done|vm_compute; reflexivity]. }
  assert (PyDict.get H1
            (query_batches false scenario_engine PyDict.empty [[H1; H2]]).2
          = Some {["TagsOnly"]}) as Hget by (vm_compute; reflexivity).
  specialize (Hclaim (scenario_analyzer false) [H1; H2] _ _ H1
                {["TagsOnly"]} eq_refl Hrun Hget).
  by apply (non_empty_singleton_L (C:=gset string) "TagsOnly").
Qed.

(** C3, amended: with tracking disabled every hash key of the MatchResult
    maps to the singleton set of the sentinel [TagsOnly]. *)
Theorem tags_only_provenance (self : Analyzer) (hashes : list string)
    (self' : Analyzer) (m : PyDict.t (gset string)) (h : string)
    (s : gset string) :
  truthy (add_source_attribute self) = false →
  check_against_hashr self hashes = Return self' m →
  PyDict.get h m = Some s →
  s = {["TagsOnly"]}.
Proof.
  intros Hflag (eng & size & batches & _ & _ & _ & _ & ->)
    %check_against_hashr_Return Hget.
  rewrite Hflag in Hget. rewrite get_to_gmap in Hget.
  assert (is_Some (PyDict.to_gmap
            (query_batches false eng PyDict.empty batches).2 !! h)) as Hkey
    by eauto.
  assert (∀ x, x ∈ s ↔ x ∈ provenance
            (PyDict.to_gmap (query_batches false eng PyDict.empty batches).2)
            h) as Hs.
  { intros x. unfold provenance. by rewrite Hget. }
  apply query_batches_keys in Hkey
    as [[? [=]]|(batch & entry & Hbatch & Hentry & Hh)].
  apply set_eq. intros x. rewrite Hs, query_batches_provenance.
  rewrite elem_of_singleton. split.
  - intros [[]%not_elem_of_empty|(b & e & _ & He & _ & <-)].
    unfold execute, select_samples in He.
    by apply list_elem_of_fmap in He as (? & -> & _).
  - intros ->. right. exists batch, entry. split_and!; [done|done|done|].
    unfold execute, select_samples in Hentry.
    by apply list_elem_of_fmap in Hentry as (? & -> & _).
Qed.

Lemma tags_only_provenance_witness :
  truthy (add_source_attribute (scenario_analyzer false)) = false
  ∧ ∃ self' m,
      check_against_hashr (scenario_analyzer false) [H1; H2] = Return self' m
      ∧ PyDict.get H1 m = Some {["TagsOnly"]}.
Proof.
  split; [reflexivity|].
  assert (check_against_hashr (scenario_analyzer false) [H1; H2]
          = Return
              (set_conn
                 (Some (dispose (query_batches false scenario_engine
                                   PyDict.empty [[H1; H2]]).1))
                 (scenario_analyzer false))
              (query_batches false scenario_engine PyDict.empty
                 [[H1; H2]]).2) as Hrun.
  { apply (check_against_hashr_connected (scenario_analyzer false)
             scenario_engine DEFAULT_BATCH_SIZE [H1; H2] [[H1; H2]]);
      [split; reflexivity|reflexivity|done|vm_compute; reflexivity]. }
  eexists _, _. split; [exact Hrun|].
  destruct (PyDict.get H1
              (query_batches false scenario_engine PyDict.empty
                 [[H1; H2]]).2) as [s|] eqn:Hget.
  - f_equal.
    exact (tags_only_provenance (scenario_analyzer false) [H1; H2] _ _ H1
             s eq_refl Hrun Hget).
  - by vm_compute in Hget.
Defined.

(** ** Membership with provenance tracking enabled *)

(** C10: with provenance tracking enabled a hash that is in [samples] but has
    no row in [samples_sources] is not a key of the MatchResult, while the
    same query with tracking disabled reports it: the switch changes which
    hashes match. *)
Theorem join_decides_membership (self : Analyzer) (eng : Engine)
    (hashes : list string) (size : Z) (h : string) :
  connected self eng → (1 ≤ size)%Z →
  h ∈ hashes → h ∈ samples (db eng) →
  (∀ src, (h, src) ∉ samples_sources (db eng)) →
  ∃ self1 m1 self0 m0,
    check_against_hashr (configured true size self) hashes = Return self1 m1
    ∧ check_against_hashr (configured false size self) hashes
      = Return self0 m0
    ∧ (h ∉ PyDict.keys m1)
    ∧ h ∈ PyDict.keys m0.
Proof.
  intros [Hconn Htables] Hsize Hh Hsample Horphan.
  destruct (batch_hashes_concat hashes size Hsize) as (batches & Hb & Hcat).
  eexists _, _, _, _. split_and!.
  - by apply (check_against_hashr_connected _ eng size _ batches);
      [| |lia|].
  - by apply (check_against_hashr_connected _ eng size _ batches);
      [| |lia|].
  - simpl. rewrite elem_of_keys, query_batches_keys.
    intros [[? [=]]|(batch & entry & _ & [Hrow _]%elem_of_execute & Hentry)].
    unfold all_rows in Hrow.
    apply list_elem_of_bind in Hrow as (ss & (s & He & _)%list_elem_of_bind
                                        & Hss).
    case_bool_decide; [|by apply elem_of_nil in He].
    apply list_elem_of_singleton in He as ->. simpl in Hentry.
    apply (Horphan ss.2). rewrite <-Hentry. by destruct ss.
  - simpl. rewrite elem_of_keys, query_batches_keys. right.
    rewrite <-Hcat in Hh. apply elem_of_concat in Hh as (batch & Hin & Hbatch).
    exists batch, (RowSample h). split_and!; [done| |done].
    apply elem_of_execute. split; [|done].
    unfold all_rows. by apply list_elem_of_fmap_2.
Qed.

Lemma join_decides_membership_witness :
  ∃ self1 m1 self0 m0,
    check_against_hashr
      (configured true 50000 (orphan_analyzer true)) [H1; H2]
      = Return self1 m1
    ∧ check_against_hashr
        (configured false 50000 (orphan_analyzer true)) [H1; H2]
      = Return self0 m0
    ∧ (H2 ∉ PyDict.keys m1)
    ∧ H2 ∈ PyDict.keys m0.
Proof.
  apply (join_decides_membership (orphan_analyzer true)
           (mkEngine orphan_db [] 0) [H1; H2] 50000 H2).
  - split; reflexivity.
  - lia.
  - right. left.
  - right. left.
  - intros src [Heq|Hin]%elem_of_cons; [discriminate Heq|].
    by apply elem_of_nil in Hin.
Defined.

(** ** The collection loop *)

Lemma first_field_present fields src key v :
  first_present fields src key v → first_field fields src = v.
Proof.
  intros (pre & post & -> & Hpre & Hkey).
  induction pre as [|k pre IH]; simpl.
  - by rewrite Hkey.
  - rewrite Hpre by left. apply IH. intros k' Hk'. apply Hpre. by right.
Qed.

Lemma first_field_absent fields src :
  (∀ k, k ∈ fields → src !! k = None) → first_field fields src = VNone.
Proof.
  induction fields as [|k fields IH]; intros Hnone; simpl; [done|].
  rewrite Hnone by left. apply IH. intros k' Hk'. apply Hnone. by right.
Qed.

Lemma collect_events_cons i event rest st st' :
  collect_event i event st = Ok st' →
  collect_events i (event :: rest) st = collect_events (S i) rest st'.
Proof. intros Hstep. simpl. by rewrite Hstep. Qed.

Lemma truthy_VStr s : truthy (VStr s) = negb (bool_decide (s = "")).
Proof.
  simpl. f_equal. destruct (String.eqb_spec s "") as [->|Hne].
  - by rewrite bool_decide_true.
  - by rewrite bool_decide_false.
Qed.

Lemma collect_event_string i event st s :
  first_field return_fields (source event) = VStr s →
  collect_event i event st
  = if bool_decide (String.length s = 64) then Ok (filed i s st)
    else Ok (rejected
               (if bool_decide (s = "") then NoMatchingField (source event)
                else WrongLength (VStr s) (String.length s)) st).
Proof.
  intros Hfield. unfold collect_event. rewrite Hfield, truthy_VStr.
  case_bool_decide as Hempty; simpl.
  - subst s. by rewrite bool_decide_false.
  - case_bool_decide as Hlen.
    + rewrite Hlen. done.
    + destruct (Nat.eqb_spec (String.length s) 64); done.
Qed.

(** C4 does not hold of the code. A string of another length than 64 is
    counted and skipped and the run goes on, as the claim says; but a truthy
    value without a length (the number 7), or a list of 64 elements, makes
    the collection loop raise [TypeError]: the run is aborted, the event with
    a known hash that came before is left unannotated, and no summary is
    produced. *)
Theorem extraction_failure_aborts_run :
  (∃ w out,
     run (new_analyzer blank_output) (scenario_env true None)
       short_hash_events = Return w out
     ∧ annotation <$> heap w
       = [({["known-hash"]},
           {["hashR_sample_sources" := ["imageA:src1"]]}, 1);
          (∅, ∅, 0)]
     ∧ result_summary out
       = "Found a total of 2 events that contain a sha256 hash value - "
         +:+ "1 / 1 unique hashes known in hashR - 1 events tagged - "
         +:+ "0 entries were tagged as zerobyte files - "
         +:+ "1 events raised an error")
  ∧ (∃ w,
       run (new_analyzer blank_output) (scenario_env true None)
         unsized_events = Raise w TypeError
       ∧ heap w = unsized_events)
  ∧ (∃ w,
       run (new_analyzer blank_output) (scenario_env true None)
         unhashable_events = Raise w TypeError
       ∧ heap w = unhashable_events).
Proof.
  split_and!.
  - eexists _, _. split; [vm_compute; reflexivity|].
    split; vm_compute; reflexivity.
  - eexists. split; [vm_compute; reflexivity|reflexivity].
  - eexists. split; [vm_compute; reflexivity|reflexivity].
Qed.

(** A stream whose hash fields hold strings (or nothing truthy) is collected
    to the end: no rejection raises. *)
Lemma collect_events_no_abort events i st :
  Forall (λ e, let v := first_field return_fields (source e) in
               truthy v = false ∨ ∃ s, v = VStr s) events →
  ∃ st', collect_events i events st = Ok st'.
Proof.
  intros Hall. revert i st.
  induction Hall as [|e events [Hfalsy|[s Hs]] _ IH]; intros i st; simpl.
  - eauto.
  - unfold collect_event. rewrite Hfalsy. simpl. apply IH.
  - rewrite (collect_event_string i e st s Hs). case_bool_decide; apply IH.
Qed.

(** ** Falsy field values *)

(** C9: an event whose first recognized field present holds a falsy value is
    rejected on the path of an event without any recognized field: the error
    counter is incremented, the warning is the "no matching field" one, the
    length is never taken and the HashIndex is left as it was. *)
Theorem falsy_value_no_matching_field (i : nat) (event : Event)
    (st : Collected) (key : string) (v : value) :
  first_present return_fields (source event) key v →
  truthy v = false →
  collect_event i event st
  = Ok (rejected (NoMatchingField (source event)) st)
  ∧ hash_events_dict (rejected (NoMatchingField (source event)) st)
    = hash_events_dict st
  ∧ ∀ other,
      (∀ k, k ∈ return_fields → source other !! k = None) →
      collect_event i other st
      = Ok (rejected (NoMatchingField (source other)) st).
Proof.
  intros Hfield%first_field_present Hfalsy. split_and!; [|done|].
  - unfold collect_event. by rewrite Hfield, Hfalsy.
  - intros other Hnone%first_field_absent. unfold collect_event.
    by rewrite Hnone.
Qed.

Lemma falsy_value_no_matching_field_witness :
  truthy (VInt 0) = false
  ∧ collect_event 0 (event_with "hash" (VInt 0)) collect_start
    = Ok (rejected (NoMatchingField (source (event_with "hash" (VInt 0))))
            collect_start).
Proof.
  split; [reflexivity|].
  refine (proj1 (falsy_value_no_matching_field 0 (event_with "hash" (VInt 0))
                   collect_start "hash" (VInt 0) _ eq_refl)).
  exists ["hash_sha256"], ["sha256"; "sha256_hash"]. split_and!; [done| |done].
  intros k ->%list_elem_of_singleton. done.
Defined.

(** ** [run]: the early exit *)

Lemma connect_hashr_Return self env self1 b :
  connect_hashr self env = Return self1 b →
  hashr_conn self1 = Some (mkEngine (database env) [] 0)
  ∧ is_bool (add_source_attribute self1) = true
  ∧ add_source_attribute self1 = HASHR_ADD_SOURCE_ATTRIBUTE env
  ∧ query_batch_size self1
    = Some (default DEFAULT_BATCH_SIZE (HASHR_QUERY_BATCH_SIZE env))
  ∧ zerobyte_file_counter self1 = zerobyte_file_counter self
  ∧ connected self1 (mkEngine (database env) [] 0).
Proof.
  unfold connect_hashr. intros Hret.
  destruct (forallb id _) eqn:Hconf; [|done]. cbn [negb] in Hret.
  destruct (reachable env); [|done]. cbn [negb] in Hret.
  destruct (forallb _ required_tables) eqn:Htables; [|done].
  cbn [negb] in Hret. injection Hret as <- <-.
  simpl in Hconf. repeat (apply andb_prop in Hconf as [? Hconf]).
  by split_and!.
Qed.

Lemma collect_event_no_hash i event st :
  no_hash event → ∃ w, collect_event i event st = Ok (rejected w st).
Proof.
  unfold no_hash, collect_event.
  set (v := first_field return_fields (source event)).
  intros [Hfalsy|(n & Hlen & Hn)].
  - rewrite Hfalsy. cbn [negb]. eauto.
  - destruct (truthy v); cbn [negb]; [|by eauto].
    rewrite Hlen. destruct (Nat.eqb_spec n 64); [done|]. cbn [negb]. eauto.
Qed.

Lemma collect_events_no_hash events i st :
  Forall no_hash events →
  ∃ st', collect_events i events st = Ok st'
         ∧ hash_events_dict st' = hash_events_dict st
         ∧ total_event_counter st'
           = total_event_counter st + length events.
Proof.
  intros Hall. revert i st.
  induction Hall as [|e events He _ IH]; intros i st; simpl.
  - eexists. split_and!; [done|done|lia].
  - destruct (collect_event_no_hash i e st He) as [w ->].
    destruct (IH (S i) (rejected w st)) as (st' & -> & Hd & Ht).
    exists st'. split_and!; [done|done|]. rewrite Ht. simpl. lia.
Qed.

(** C5: a run that connects and whose events are all rejected (or that has
    no event) returns with status SUCCESS and the message that the timeline
    holds no sha256 hash; no query was executed on the engine and no event
    was touched. *)
Theorem no_hashes_early_exit (self : Analyzer) (env : Env)
    (events : list Event) (self1 : Analyzer) (b : bool) :
  connect_hashr self env = Return self1 b →
  Forall no_hash events →
  ∃ w out,
    run self env events = Return w out
    ∧ result_status out = "SUCCESS"
    ∧ result_summary out
      = "This timeline does not contain any fields with a sha256 hash."
    ∧ output (analyzer w) = out
    ∧ heap w = events
    ∧ executed <$> hashr_conn (analyzer w) = Some [].
Proof.
  intros Hconn Hall.
  destruct (connect_hashr_Return _ _ _ _ Hconn) as (Heng & _).
  destruct (collect_events_no_hash events 0 collect_start Hall)
    as (st & Hst & Hdict & _).
  unfold run. rewrite Hconn, Hst, Hdict. simpl.
  eexists _, _. split_and!; [done..|]. simpl. by rewrite Heng.
Qed.

Lemma no_hashes_early_exit_witness :
  Forall no_hash [event_with "hash" (VStr "abc")]
  ∧ ∃ w out,
      run (new_analyzer blank_output) (scenario_env true None)
        [event_with "hash" (VStr "abc")] = Return w out
      ∧ result_status out = "SUCCESS"
      ∧ executed <$> hashr_conn (analyzer w) = Some [].
Proof.
  assert (Forall no_hash [event_with "hash" (VStr "abc")]) as Hall.
  { apply Forall_singleton. right. exists 3. split; [reflexivity|lia]. }
  split; [done|].
  destruct (no_hashes_early_exit (new_analyzer blank_output)
              (scenario_env true None) [event_with "hash" (VStr "abc")]
              _ _ eq_refl Hall) as (w & out & ? & ? & _ & _ & _ & ?).
  by exists w, out.
Defined.

(** ** [run]: disposing of the engine *)

(** The early exit returns without disposing of the engine that
    [connect_hashr] created. *)
Lemma early_exit_not_disposed self env events self1 b :
  connect_hashr self env = Return self1 b →
  Forall no_hash events →
  ∃ w out, run self env events = Return w out
           ∧ dispose_count (analyzer w) = Some 0.
Proof.
  intros Hconn Hall.
  destruct (connect_hashr_Return _ _ _ _ Hconn) as (Heng & _).
  destruct (collect_events_no_hash events 0 collect_start Hall)
    as (st & Hst & Hdict & _).
  unfold run. rewrite Hconn, Hst, Hdict. simpl.
  eexists _, _. split; [done|]. unfold dispose_count. simpl.
  by rewrite Heng.
Qed.

(** C6 does not hold of the code: [dispose()] is only called at the end of
    [check_against_hashr]. On an empty stream [run] returns through the
    early exit with the engine never disposed of; with a batch size of 0 it
    raises after the connection is made, again without disposing; only the
    path through a completed [check_against_hashr] disposes once. *)
Theorem engine_not_disposed_on_early_exit :
  (∃ w out,
     run (new_analyzer blank_output) (scenario_env true None) []
     = Return w out
     ∧ dispose_count (analyzer w) = Some 0)
  ∧ (∃ w,
       run (new_analyzer blank_output) (scenario_env true (Some 0%Z))
         scenario_events = Raise w ZeroDivisionError
       ∧ dispose_count (analyzer w) = Some 0)
  ∧ (∃ w out,
       run (new_analyzer blank_output) (scenario_env true None)
         scenario_events = Return w out
       ∧ dispose_count (analyzer w) = Some 1).
Proof.
  split_and!.
  - eexists _, _. split; [vm_compute; reflexivity|reflexivity].
  - eexists. split; [vm_compute; reflexivity|reflexivity].
  - eexists _, _. split; [vm_compute; reflexivity|reflexivity].
Qed.

(** ** The scenario of the spec *)

(** C8: in the scenario with provenance tracking enabled both events with H1
    get the tag [known-hash] and the attribute [hashR_sample_sources] with
    the one descriptor [imageA:src1], the event with H2 is left untouched,
    and the summary gives 3 events, 1 of 2 unique hashes known, 2 events
    tagged, 0 zero-byte files and 0 errors; with tracking disabled the two
    events get the tag and no attribute. *)
Theorem scenario_outcome :
  (∃ w out,
     run (new_analyzer blank_output) (scenario_env true None) scenario_events
     = Return w out
     ∧ annotation <$> heap w
       = [({["known-hash"]},
           {["hashR_sample_sources" := ["imageA:src1"]]}, 1);
          ({["known-hash"]},
           {["hashR_sample_sources" := ["imageA:src1"]]}, 1);
          (∅, ∅, 0)]
     ∧ result_status out = "SUCCESS"
     ∧ result_summary out
       = "Found a total of 3 events that contain a sha256 hash value - "
         +:+ "1 / 2 unique hashes known in hashR - 2 events tagged - "
         +:+ "0 entries were tagged as zerobyte files - "
         +:+ "0 events raised an error"
     ∧ unique_known_hash_counter (analyzer w) = 1
     ∧ zerobyte_file_counter (analyzer w) = 0)
  ∧ (∃ w out,
       run (new_analyzer blank_output) (scenario_env false None)
         scenario_events = Return w out
       ∧ annotation <$> heap w
         = [({["known-hash"]}, ∅, 1); ({["known-hash"]}, ∅, 1); (∅, ∅, 0)]
       ∧ result_summary out
         = "Found a total of 3 events that contain a sha256 hash value - "
           +:+ "1 / 2 unique hashes known in hashR - 2 events tagged - "
           +:+ "0 entries were tagged as zerobyte files - "
           +:+ "0 events raised an error").
Proof.
  split.
  - eexists _, _. split; [vm_compute; reflexivity|].
    split_and!; vm_compute; reflexivity.
  - eexists _, _. split; [vm_compute; reflexivity|].
    split_and!; vm_compute; reflexivity.
Qed.

(** ** One commit per event *)

Lemma collect_event_dict i event st st' :
  collect_event i event st = Ok st' →
  hash_events_dict st'
  = match hash_key event with
    | Some s =>
        PyDict.setdefault_update s [] (λ l, l ++ [i]) (hash_events_dict st)
    | None => hash_events_dict st
    end.
Proof.
  unfold hash_key.
  destruct (first_field return_fields (source event)) as [| | |s|l] eqn:Hv.
  1-3,5: unfold collect_event; rewrite Hv;
    destruct (truthy _); cbn [negb py_len]; try done;
    try (by intros [= <-]).
  - destruct (length l =? 64); cbn [negb]; [done|]. by intros [= <-].
  - rewrite (collect_event_string i event st s Hv).
    case_bool_decide; by intros [= <-].
Qed.

Lemma collect_events_lookup events i st st' k :
  collect_events i events st = Ok st' →
  PyDict.to_gmap (hash_events_dict st') !! k
  = match PyDict.to_gmap (hash_events_dict st) !! k, refs_of i events k with
    | None, [] => None
    | o, refs => Some (default [] o ++ refs)
    end.
Proof.
  revert i st. induction events as [|e events IH]; intros i st; simpl.
  - intros [= <-]. destruct (_ !! k); [|done]. by rewrite app_nil_r.
  - destruct (collect_event i e st) as [st1|] eqn:Hstep; [|done].
    intros Hrest. rewrite (IH _ _ Hrest).
    rewrite (collect_event_dict _ _ _ _ Hstep).
    destruct (hash_key e) as [s|] eqn:Hkey.
    + rewrite to_gmap_setdefault_update.
      destruct (decide (s = k)) as [->|Hne].
      * rewrite lookup_insert_eq, bool_decide_true by done. simpl.
        rewrite <-app_assoc. simpl.
        by destruct (PyDict.to_gmap (hash_events_dict st) !! k).
      * rewrite lookup_insert_ne by done.
        rewrite bool_decide_false by congruence. done.
    + rewrite bool_decide_false by done. done.
Qed.

Lemma occ_nil j : occ j [] = 0.
Proof. done. Qed.

Lemma occ_cons j i refs :
  occ j (i :: refs) = (if decide (i = j) then 1 else 0) + occ j refs.
Proof.
  unfold occ. rewrite filter_cons. by case_decide.
Qed.

Lemma occ_app j refs1 refs2 : occ j (refs1 ++ refs2) = occ j refs1 + occ j refs2.
Proof. unfold occ. by rewrite filter_app, length_app. Qed.

Lemma occ_refs_of events i j k :
  occ j (refs_of i events k)
  = match events !! (j - i) with
    | Some e =>
        if bool_decide (i ≤ j ∧ hash_key e = Some k) then 1 else 0
    | None => 0
    end.
Proof.
  revert i. induction events as [|e events IH]; intros i; simpl; [done|].
  rewrite occ_app, IH.
  destruct (decide (j = i)) as [->|Hne].
  - replace (i - i) with 0 by lia. replace (i - S i) with 0 by lia. simpl.
    assert (∀ o : option Event,
      match o with
      | Some e0 => if bool_decide (S i ≤ i ∧ hash_key e0 = Some k)
                   then 1 else 0
      | None => 0
      end = 0) as ->.
    { intros [e0|]; [|done]. rewrite bool_decide_false; [done|lia]. }
    case_bool_decide as Hk.
    + rewrite occ_cons, decide_True, bool_decide_true by (done || lia).
      done.
    + rewrite occ_nil, bool_decide_false; [done|]. by intros [_ ?].
  - assert (occ j (if bool_decide (hash_key e = Some k) then [i] else [])
            = 0) as ->.
    { case_bool_decide; [|done]. by rewrite occ_cons, decide_False. }
    destruct (decide (i < j)) as [Hlt|Hge].
    + replace (j - i) with (S (j - S i)) by lia. simpl.
      destruct (events !! (j - S i)) as [e0|]; [|done].
      destruct (decide (hash_key e0 = Some k)).
      * rewrite !bool_decide_true by (split; [lia|done]). done.
      * rewrite !bool_decide_false by (by intros [_ ?]). done.
    + replace (j - i) with 0 by lia. replace (j - S i) with 0 by lia. simpl.
      rewrite (bool_decide_false (i ≤ j ∧ _)) by lia.
      destruct (events !! 0); [|done]. rewrite bool_decide_false; [done|lia].
Qed.

(** * Further properties of the code *)

(** ** More on [batch_hashes] *)

Lemma range_from_nonempty fuel i stop step :
  range_from fuel i stop step ≠ [] → i < stop.
Proof. destruct fuel; simpl; [done|]. by case_decide. Qed.

Lemma ceil_div_small n step : 1 ≤ n → n ≤ step → ceil_div n step = 1.
Proof.
  intros Hn Hstep. unfold ceil_div.
  symmetry. apply (Nat.div_unique _ _ _ (n - 1)); lia.
Qed.

Lemma ceil_div_step n step :
  1 ≤ step → step ≤ n → ceil_div n step = S (ceil_div (n - step) step).
Proof.
  intros Hstep Hn. unfold ceil_div.
  replace (n + step - 1) with ((n - step + step - 1) + 1 * step) by lia.
  rewrite Nat.div_add by lia. lia.
Qed.

Lemma ceil_div_0 step : 1 ≤ step → ceil_div 0 step = 0.
Proof. intros Hstep. unfold ceil_div. apply Nat.div_small. lia. Qed.

Lemma slices_shape {A} (l : list A) (step fuel i : nat) :
  1 ≤ step → length l - i ≤ fuel →
  let batches :=
    (λ i, slice l i (i + step)) <$> range_from fuel i (length l) step in
  Forall (λ b, 1 ≤ length b ≤ step) batches
  ∧ (∀ k b, batches !! k = Some b → S k < length batches →
            length b = step)
  ∧ length batches = ceil_div (length l - i) step.
Proof.
  intros Hstep. revert i.
  induction fuel as [|fuel IH]; intros i Hfuel; simpl.
  - split_and!; [done|done|]. replace (length l - i) with 0 by lia.
    by rewrite ceil_div_0.
  - case_decide as Hi; csimpl.
    + destruct (IH (i + step)) as (Hall & Hfull & Hlen); [lia|].
      assert (length (slice l i (i + step))
              = step `min` (length l - i)) as Hb.
      { unfold slice. rewrite length_take, length_drop. lia. }
      split_and!.
      * constructor; [lia|done].
      * intros [|k] b Hk Hlast; simpl in *.
        -- injection Hk as <-. rewrite Hb.
           assert (i + step < length l); [|lia].
           apply (range_from_nonempty fuel _ _ step).
           intros Hnil. rewrite Hnil in Hlast. simpl in Hlast. lia.
        -- apply (Hfull k); [done|lia].
      * rewrite Hlen. destruct (decide (step ≤ length l - i)).
        -- rewrite (ceil_div_step (length l - i)) by lia.
           do 2 f_equal. lia.
        -- replace (length l - (i + step)) with 0 by lia.
           rewrite ceil_div_0, ceil_div_small by lia. done.
    + split_and!; [done|done|]. replace (length l - i) with 0 by lia.
      by rewrite ceil_div_0.
Qed.

(** X1: with a batch size of at least 1 every batch is non-empty and holds
    at most [batch_size] hashes, and every batch but the last holds exactly
    [batch_size]. *)
Theorem batch_hashes_sizes (hash_list : list string) (batch_size : Z)
    (batches : list (list string)) :
  (1 ≤ batch_size)%Z →
  batch_hashes hash_list batch_size = Ok batches →
  Forall (λ b, 1 ≤ length b ≤ Z.to_nat batch_size) batches
  ∧ ∀ k b, batches !! k = Some b → S k < length batches →
           length b = Z.to_nat batch_size.
Proof.
  intros Hsize. unfold batch_hashes, py_range.
  rewrite decide_False by lia. rewrite decide_False by lia.
  intros [= <-].
  destruct (slices_shape hash_list (Z.to_nat batch_size) (length hash_list) 0)
    as (? & ? & _); [lia|lia|done].
Qed.

Lemma batch_hashes_sizes_witness :
  (1 ≤ 2)%Z
  ∧ batch_hashes ["a"; "b"; "c"] 2 = Ok [["a"; "b"]; ["c"]]
  ∧ Forall (λ b, 1 ≤ length b ≤ 2) [["a"; "b"]; ["c"]].
Proof.
  split; [lia|]. split; [reflexivity|].
  exact (proj1 (batch_hashes_sizes ["a"; "b"; "c"] 2 [["a"; "b"]; ["c"]]
                  ltac:(lia) eq_refl)).
Defined.

(** X2: with a batch size of at least 1 the number of batches is the number
    of hashes divided by the batch size, rounded up. *)
Theorem batch_hashes_count (hash_list : list string) (batch_size : Z)
    (batches : list (list string)) :
  (1 ≤ batch_size)%Z →
  batch_hashes hash_list batch_size = Ok batches →
  length batches = ceil_div (length hash_list) (Z.to_nat batch_size).
Proof.
  intros Hsize. unfold batch_hashes, py_range.
  rewrite decide_False by lia. rewrite decide_False by lia.
  intros [= <-].
  destruct (slices_shape hash_list (Z.to_nat batch_size) (length hash_list) 0)
    as (_ & _ & ->); [lia|lia|]. by rewrite Nat.sub_0_r.
Qed.

Lemma batch_hashes_count_witness :
  (1 ≤ 2)%Z
  ∧ batch_hashes ["a"; "b"; "c"] 2 = Ok [["a"; "b"]; ["c"]]
  ∧ length [["a"; "b"]; ["c"]] = ceil_div 3 2.
Proof.
  split; [lia|]. split; [reflexivity|].
  exact (batch_hashes_count ["a"; "b"; "c"] 2 [["a"; "b"]; ["c"]]
           ltac:(lia) eq_refl).
Defined.

(** ** More on [check_against_hashr] *)

(** X3: a batch size of 0 makes [check_against_hashr] raise
    [ZeroDivisionError] before any query, leaving the analyzer as it was; a
    negative batch size makes it return an empty MatchResult without
    executing any query, the engine being disposed of. *)
Theorem check_against_hashr_bad_batch_size (self : Analyzer) (eng : Engine)
    (hashes : list string) (size : Z) :
  connected self eng → query_batch_size self = Some size →
  (size = 0%Z →
   check_against_hashr self hashes = Raise self ZeroDivisionError)
  ∧ ((size < 0)%Z →
     check_against_hashr self hashes
     = Return (set_conn (Some (dispose eng)) self) PyDict.empty).
Proof.
  intros [Hconn Htables] Hsize. unfold check_against_hashr.
  rewrite Hconn, Htables, Hsize. cbn [negb]. split.
  - intros ->. by rewrite decide_True.
  - intros Hneg. rewrite decide_False by lia.
    unfold batch_hashes, py_range.
    rewrite decide_False by lia. by rewrite decide_True.
Qed.

Lemma check_against_hashr_bad_batch_size_witness :
  connected (with_batch_size (-5) (scenario_analyzer true)) scenario_engine
  ∧ check_against_hashr (with_batch_size (-5) (scenario_analyzer true))
      [H1; H2]
    = Return
        (set_conn (Some (dispose scenario_engine))
           (with_batch_size (-5) (scenario_analyzer true)))
        PyDict.empty.
Proof.
  assert (connected (with_batch_size (-5) (scenario_analyzer true))
            scenario_engine) as Hc by (split; reflexivity).
  split; [done|].
  exact (proj2 (check_against_hashr_bad_batch_size _ scenario_engine [H1; H2]
                  (-5) Hc eq_refl) ltac:(lia)).
Defined.

Lemma query_batches_engine with_sources eng m batches :
  (query_batches with_sources eng m batches).1
  = mkEngine (db eng) (executed eng ++ batches) (disposed eng).
Proof.
  revert eng m. induction batches as [|b batches IH]; intros eng m; simpl.
  - rewrite app_nil_r. by destruct eng.
  - rewrite IH. simpl. by rewrite <-app_assoc.
Qed.

(** X4: a call of [check_against_hashr] that returns has executed one query
    per batch, in the order of the batches, has disposed of the engine once
    and has changed nothing else of the analyzer. *)
Theorem one_query_per_batch (self : Analyzer) (eng : Engine)
    (hashes : list string) (self' : Analyzer) (m : PyDict.t (gset string)) :
  hashr_conn self = Some eng →
  check_against_hashr self hashes = Return self' m →
  ∃ size batches,
    query_batch_size self = Some size
    ∧ batch_hashes hashes size = Ok batches
    ∧ self'
      = set_conn
          (Some (mkEngine (db eng) (executed eng ++ batches)
                   (S (disposed eng)))) self.
Proof.
  intros Hconn (eng' & size & batches & [Hc _] & Hsize & Hb & -> & _)
    %check_against_hashr_Return.
  rewrite Hconn in Hc. injection Hc as <-.
  exists size, batches. split_and!; [done|done|].
  by rewrite query_batches_engine.
Qed.

Lemma one_query_per_batch_witness :
  ∃ self' m size batches,
    check_against_hashr (with_batch_size 1 (scenario_analyzer true)) [H1; H2]
    = Return self' m
    ∧ query_batch_size (with_batch_size 1 (scenario_analyzer true))
      = Some size
    ∧ batch_hashes [H1; H2] size = Ok batches
    ∧ self'
      = set_conn
          (Some (mkEngine scenario_db ([] ++ batches) 1))
          (with_batch_size 1 (scenario_analyzer true)).
Proof.
  pose proof (check_against_hashr_connected
                (with_batch_size 1 (scenario_analyzer true)) scenario_engine
                1 [H1; H2] [[H1]; [H2]]
                ltac:(split; reflexivity) eq_refl ltac:(done)
                ltac:(vm_compute; reflexivity)) as Hrun.
  destruct (one_query_per_batch (with_batch_size 1 (scenario_analyzer true))
              scenario_engine [H1; H2] _ _ eq_refl Hrun)
    as (size & batches & Hsize & Hb & Heq).
  eexists _, _, size, batches. split_and!; [exact Hrun|done|done|exact Heq].
Defined.

(** ** What the MatchResult holds *)

Lemma source_of_join h src (s : SourceRow) :
  source_of (RowJoin h src (sourceid s) (reponame s)) = descriptor s.
Proof. unfold descriptor. simpl. by destruct (sourceid s). Qed.

Lemma elem_of_all_rows_join db entry :
  entry ∈ all_rows true db
  ↔ ∃ h s, known_with_sources db h s
           ∧ entry = RowJoin h (src_sha256 s) (sourceid s) (reponame s).
Proof.
  unfold all_rows, known_with_sources. rewrite list_elem_of_bind. split.
  - intros ([h src] & (s & He & Hs)%list_elem_of_bind & Hss). simpl in He.
    case_bool_decide as Hsrc; [|by apply elem_of_nil in He].
    apply list_elem_of_singleton in He as ->. subst src.
    exists h, s. by split_and!.
  - intros (h & s & [Hss Hs] & ->). exists (h, src_sha256 s).
    split; [|done]. apply list_elem_of_bind. exists s. split; [|done].
    simpl. rewrite bool_decide_true by done. by apply list_elem_of_singleton.
Qed.

Lemma elem_of_all_rows_samples db entry :
  entry ∈ all_rows false db ↔ ∃ h, h ∈ samples db ∧ entry = RowSample h.
Proof.
  unfold all_rows. rewrite list_elem_of_fmap. split.
  - intros (h & -> & Hh). by exists h.
  - intros (h & Hh & ->). by exists h.
Qed.

Lemma known_all_rows with_sources db h :
  known with_sources db h
  ↔ ∃ entry, entry ∈ all_rows with_sources db ∧ sample_hash_of entry = h.
Proof.
  destruct with_sources; simpl.
  - split.
    + intros [s Hs].
      exists (RowJoin h (src_sha256 s) (sourceid s) (reponame s)).
      split; [|done]. apply elem_of_all_rows_join. by exists h, s.
    + intros (entry & (h' & s & Hs & ->)%elem_of_all_rows_join & <-).
      by exists s.
  - split.
    + intros Hh. exists (RowSample h). split; [|done].
      apply elem_of_all_rows_samples. by exists h.
    + by intros (entry & (h' & Hh & ->)%elem_of_all_rows_samples & <-).
Qed.

Lemma check_against_hashr_result self eng size hashes self' m :
  connected self eng → query_batch_size self = Some size → (1 ≤ size)%Z →
  check_against_hashr self hashes = Return self' m →
  ∃ batches,
    concat batches = hashes
    ∧ m = (query_batches (truthy (add_source_attribute self)) eng
             PyDict.empty batches).2.
Proof.
  intros Hc Hsize Hpos Hrun.
  destruct (batch_hashes_concat hashes size Hpos) as (batches & Hb & Hcat).
  rewrite (check_against_hashr_connected self eng size hashes batches)
    in Hrun by (done || lia).
  injection Hrun as _ <-. by exists batches.
Qed.

(** X5: with a batch size of at least 1 the hash keys of the MatchResult are
    exactly the queried hashes that hashR knows: those in [samples] when
    provenance tracking is disabled, those with a row of [samples_sources]
    whose source is in [sources] when it is enabled. *)
Theorem match_result_keys (self : Analyzer) (eng : Engine)
    (hashes : list string) (size : Z) (self' : Analyzer)
    (m : PyDict.t (gset string)) (h : string) :
  connected self eng → query_batch_size self = Some size → (1 ≤ size)%Z →
  check_against_hashr self hashes = Return self' m →
  h ∈ PyDict.keys m
  ↔ h ∈ hashes ∧ known (truthy (add_source_attribute self)) (db eng) h.
Proof.
  intros Hc Hsize Hpos Hrun.
  destruct (check_against_hashr_result _ _ _ _ _ _ Hc Hsize Hpos Hrun)
    as (batches & <- & ->).
  rewrite elem_of_keys, query_batches_keys, known_all_rows, elem_of_concat.
  split.
  - intros [[? [=]]|(batch & entry & Hb & [Hrow Hin]%elem_of_execute & <-)].
    split; eauto.
  - intros [(batch & Hin & Hb) (entry & Hrow & <-)]. right.
    exists batch, entry. split_and!; [done| |done].
    by apply elem_of_execute.
Qed.

Lemma match_result_keys_witness :
  ∃ self' m,
    check_against_hashr (scenario_analyzer true) [H1; H2] = Return self' m
    ∧ (H1 ∈ PyDict.keys m
       ↔ H1 ∈ [H1; H2] ∧ known true scenario_db H1).
Proof.
  pose proof (check_against_hashr_connected (scenario_analyzer true)
                scenario_engine DEFAULT_BATCH_SIZE [H1; H2] [[H1; H2]]
                ltac:(split; reflexivity) eq_refl ltac:(done)
                ltac:(vm_compute; reflexivity)) as Hrun.
  eexists _, _. split; [exact Hrun|].
  eapply (match_result_keys (scenario_analyzer true) scenario_engine [H1; H2]
           DEFAULT_BATCH_SIZE _ _ H1);
    [split; reflexivity|reflexivity|done|exact Hrun].
Defined.

(** X6: with a batch size of at least 1 and provenance tracking enabled, the
    set kept for a hash holds exactly the descriptors [reponame:sourceid] of
    the sources joined to it, and only for a queried hash. *)
Theorem match_result_provenance (self : Analyzer) (eng : Engine)
    (hashes : list string) (size : Z) (self' : Analyzer)
    (m : PyDict.t (gset string)) (h x : string) :
  connected self eng → query_batch_size self = Some size → (1 ≤ size)%Z →
  truthy (add_source_attribute self) = true →
  check_against_hashr self hashes = Return self' m →
  x ∈ provenance (PyDict.to_gmap m) h
  ↔ h ∈ hashes
    ∧ ∃ s, known_with_sources (db eng) h s ∧ x = descriptor s.
Proof.
  intros Hc Hsize Hpos Hflag Hrun.
  destruct (check_against_hashr_result _ _ _ _ _ _ Hc Hsize Hpos Hrun)
    as (batches & <- & ->).
  rewrite Hflag, query_batches_provenance, elem_of_concat. split.
  - intros [[]%not_elem_of_empty
           |(batch & entry & Hb & [Hrow Hin]%elem_of_execute & Hh & Hx)].
    apply elem_of_all_rows_join in Hrow as (h' & s & Hs & ->).
    rewrite source_of_join in Hx. cbn [sample_hash_of] in Hh, Hin.
    subst h' x. split; [by eauto|]. by exists s.
  - intros [(batch & Hin & Hb) (s & Hs & ->)]. right.
    exists batch, (RowJoin h (src_sha256 s) (sourceid s) (reponame s)).
    split_and!; [done| |done|by rewrite source_of_join].
    apply elem_of_execute. split; [|done].
    apply elem_of_all_rows_join. by exists h, s.
Qed.

Lemma match_result_provenance_witness :
  ∃ self' m,
    check_against_hashr (scenario_analyzer true) [H1; H2] = Return self' m
    ∧ ("imageA:src1" ∈ provenance (PyDict.to_gmap m) H1
       ↔ H1 ∈ [H1; H2]
         ∧ ∃ s, known_with_sources scenario_db H1 s
                ∧ "imageA:src1" = descriptor s).
Proof.
  pose proof (check_against_hashr_connected (scenario_analyzer true)
                scenario_engine DEFAULT_BATCH_SIZE [H1; H2] [[H1; H2]]
                ltac:(split; reflexivity) eq_refl ltac:(done)
                ltac:(vm_compute; reflexivity)) as Hrun.
  eexists _, _. split; [exact Hrun|].
  eapply (match_result_provenance (scenario_analyzer true) scenario_engine
           [H1; H2] DEFAULT_BATCH_SIZE _ _ H1 "imageA:src1");
    [split; reflexivity|reflexivity|done|reflexivity|exact Hrun].
Defined.

(** X7: no hash key of a MatchResult maps to an empty set: the set kept for
    a key holds at least the descriptor (or the sentinel) of the row that
    created it. *)
Theorem match_result_sets_nonempty (self : Analyzer) (hashes : list string)
    (self' : Analyzer) (m : PyDict.t (gset string)) (h : string)
    (s : gset string) :
  check_against_hashr self hashes = Return self' m →
  PyDict.get h m = Some s →
  s ≠ ∅.
Proof.
  intros (eng & size & batches & _ & _ & _ & _ & ->)
    %check_against_hashr_Return Hget.
  rewrite get_to_gmap in Hget.
  assert (is_Some (PyDict.to_gmap
            (query_batches (truthy (add_source_attribute self)) eng
               PyDict.empty batches).2 !! h)) as Hkey by eauto.
  apply query_batches_keys in Hkey
    as [[? [=]]|(batch & entry & Hbatch & Hentry & Hh)].
  assert (source_of entry ∈ provenance
            (PyDict.to_gmap
               (query_batches (truthy (add_source_attribute self)) eng
                  PyDict.empty batches).2) h) as Hin.
  { apply query_batches_provenance. right. by exists batch, entry. }
  unfold provenance in Hin. rewrite Hget in Hin. simpl in Hin.
  intros ->. by apply not_elem_of_empty in Hin.
Qed.

Lemma match_result_sets_nonempty_witness :
  ∃ self' m s,
    check_against_hashr (scenario_analyzer true) [H1; H2] = Return self' m
    ∧ PyDict.get H1 m = Some s
    ∧ s ≠ ∅.
Proof.
  pose proof (check_against_hashr_connected (scenario_analyzer true)
                scenario_engine DEFAULT_BATCH_SIZE [H1; H2] [[H1; H2]]
                ltac:(split; reflexivity) eq_refl ltac:(done)
                ltac:(vm_compute; reflexivity)) as Hrun.
  destruct (PyDict.get H1
              (query_batches true scenario_engine PyDict.empty
                 [[H1; H2]]).2) as [s|] eqn:Hget;
    [|by vm_compute in Hget].
  eexists _, _, s. split_and!; [exact Hrun|exact Hget|].
  exact (match_result_sets_nonempty (scenario_analyzer true) [H1; H2] _ _ H1
           s Hrun Hget).
Defined.

(** X8: the MatchResult does not depend on the order or the repetition of
    the rows in the tables: two databases whose tables hold the same rows,
    in whatever order and however often, give equal MatchResults for the same
    hashes and settings. *)
Theorem match_result_row_order (self1 self2 : Analyzer) (eng1 eng2 : Engine)
    (hashes : list string) (r1 r2 : Analyzer)
    (m1 m2 : PyDict.t (gset string)) :
  connected self1 eng1 → connected self2 eng2 →
  add_source_attribute self1 = add_source_attribute self2 →
  query_batch_size self1 = query_batch_size self2 →
  (∀ h, h ∈ samples (db eng1) ↔ h ∈ samples (db eng2)) →
  (∀ s, s ∈ sources (db eng1) ↔ s ∈ sources (db eng2)) →
  (∀ ss, ss ∈ samples_sources (db eng1) ↔ ss ∈ samples_sources (db eng2)) →
  check_against_hashr self1 hashes = Return r1 m1 →
  check_against_hashr self2 hashes = Return r2 m2 →
  PyDict.to_gmap m1 = PyDict.to_gmap m2.
Proof.
  intros [Hc1 _] [Hc2 _] Hflag Hsize Hsam Hsrc Hss
    (e1 & size1 & b1 & [Hc1' _] & Hs1 & Hb1 & _ & ->)%check_against_hashr_Return
    (e2 & size2 & b2 & [Hc2' _] & Hs2 & Hb2 & _ & ->)%check_against_hashr_Return.
  rewrite Hc1 in Hc1'. injection Hc1' as <-.
  rewrite Hc2 in Hc2'. injection Hc2' as <-.
  rewrite Hsize, Hs2 in Hs1. injection Hs1 as <-.
  rewrite Hb1 in Hb2. injection Hb2 as <-. rewrite <-Hflag.
  assert (∀ entry, entry ∈ all_rows (truthy (add_source_attribute self1))
                             (db eng1)
                   ↔ entry ∈ all_rows (truthy (add_source_attribute self1))
                               (db eng2)) as Hrows.
  { intros entry. destruct (truthy _).
    - rewrite !elem_of_all_rows_join. unfold known_with_sources.
      split; intros (h & s & [Hh Hs] & ->); exists h, s;
        (split; [split; [by apply Hss|by apply Hsrc]|done]).
    - rewrite !elem_of_all_rows_samples.
      split; intros (h & Hh & ->); exists h; (split; [by apply Hsam|done]). }
  assert (∀ batch entry,
            entry ∈ execute (truthy (add_source_attribute self1)) (db eng1)
                      batch
            ↔ entry ∈ execute (truthy (add_source_attribute self1)) (db eng2)
                        batch) as Hexec.
  { intros batch entry. by rewrite !elem_of_execute, Hrows. }
  apply match_result_eq.
  - intros h. rewrite !query_batches_keys. by setoid_rewrite Hexec.
  - intros h x. rewrite !query_batches_provenance. by setoid_rewrite Hexec.
Qed.

Lemma match_result_row_order_witness :
  (∀ h, h ∈ samples orphan_db ↔ h ∈ samples orphan_db_reordered)
  ∧ ∃ r1 m1 r2 m2,
      check_against_hashr (orphan_analyzer false) [H1; H2] = Return r1 m1
      ∧ check_against_hashr
          (set_conn (Some (mkEngine orphan_db_reordered [] 0))
             (orphan_analyzer false)) [H1; H2] = Return r2 m2
      ∧ PyDict.to_gmap m1 = PyDict.to_gmap m2.
Proof.
  assert (∀ h, h ∈ samples orphan_db ↔ h ∈ samples orphan_db_reordered)
    as Hsam.
  { intros h. simpl. rewrite !elem_of_cons. tauto. }
  assert (∀ s, s ∈ sources orphan_db ↔ s ∈ sources orphan_db_reordered)
    as Hsrc by done.
  assert (∀ ss, ss ∈ samples_sources orphan_db
                ↔ ss ∈ samples_sources orphan_db_reordered) as Hss.
  { intros ss. simpl. rewrite !elem_of_cons. tauto. }
  split; [done|].
  pose proof (check_against_hashr_connected (orphan_analyzer false)
                (mkEngine orphan_db [] 0) DEFAULT_BATCH_SIZE [H1; H2]
                [[H1; H2]] ltac:(split; reflexivity) eq_refl ltac:(done)
                ltac:(vm_compute; reflexivity)) as Hrun1.
  pose proof (check_against_hashr_connected
                (set_conn (Some (mkEngine orphan_db_reordered [] 0))
                   (orphan_analyzer false))
                (mkEngine orphan_db_reordered [] 0) DEFAULT_BATCH_SIZE
                [H1; H2] [[H1; H2]] ltac:(split; reflexivity) eq_refl
                ltac:(done) ltac:(vm_compute; reflexivity)) as Hrun2.
  eexists _, _, _, _. split_and!; [exact Hrun1|exact Hrun2|].
  exact (match_result_row_order (orphan_analyzer false)
           (set_conn (Some (mkEngine orphan_db_reordered [] 0))
              (orphan_analyzer false))
           (mkEngine orphan_db [] 0) (mkEngine orphan_db_reordered [] 0)
           [H1; H2] _ _ _ _
           ltac:(split; reflexivity) ltac:(split; reflexivity)
           eq_refl eq_refl Hsam Hsrc Hss Hrun1 Hrun2).
Defined.

(** ** [connect_hashr] *)

Lemma forallb_false {A} (f : A → bool) (l : list A) :
  forallb f l = false → ∃ x, x ∈ l ∧ f x = false.
Proof.
  induction l as [|x l IH]; simpl; [done|].
  destruct (f x) eqn:Hx; simpl.
  - intros (y & Hy & Hfy)%IH. exists y. split; [by right|done].
  - intros _. exists x. split; [left|done].
Qed.

(** X9: when [connect_hashr] returns, every connection setting was given,
    the provenance switch is a boolean, the server was reachable and the
    three tables exist; the analyzer holds a fresh engine (no query run, not
    disposed of), the switch of the configuration and the configured batch
    size, 50000 when none is configured. *)
Theorem connect_hashr_success (self : Analyzer) (env : Env)
    (self' : Analyzer) (b : bool) :
  connect_hashr self env = Return self' b →
  b = true
  ∧ config_complete env
  ∧ reachable env = true
  ∧ (∀ t, t ∈ required_tables → t ∈ table_names (database env))
  ∧ self'
    = set_conn (Some (mkEngine (database env) [] 0))
        (set_settings (HASHR_ADD_SOURCE_ATTRIBUTE env)
           (default 50000%Z (HASHR_QUERY_BATCH_SIZE env)) self).
Proof.
  unfold connect_hashr. intros Hret.
  destruct (forallb id _) eqn:Hconf; [|done]. cbn [negb] in Hret.
  destruct (reachable env); [|done]. cbn [negb] in Hret.
  destruct (forallb _ required_tables) eqn:Htables; [|done].
  cbn [negb] in Hret. injection Hret as <- <-.
  simpl in Hconf. repeat (apply andb_prop in Hconf as [? Hconf]).
  split_and!; [done|by split_and!|done| |done].
  intros t Ht. rewrite forallb_forall in Htables.
  apply list_elem_of_In, Htables in Ht. by apply bool_decide_eq_true in Ht.
Qed.

Lemma connect_hashr_success_witness :
  ∃ self',
    connect_hashr (new_analyzer blank_output) (scenario_env true None)
    = Return self' true
    ∧ config_complete (scenario_env true None)
    ∧ query_batch_size self' = Some 50000%Z.
Proof.
  destruct (connect_hashr (new_analyzer blank_output)
              (scenario_env true None)) as [self' b|] eqn:Hconn;
    [|by vm_compute in Hconn].
  destruct (connect_hashr_success _ _ _ _ Hconn)
    as (-> & Hconf & _ & _ & ->).
  eexists. split_and!; [done|done|done].
Defined.

(** X10: each of the three exceptions that [connect_hashr] raises itself
    has one cause. The configuration error means that a connection setting
    is missing or the provenance switch is not a boolean, and the connection
    error that the server refused the connection; after either the analyzer
    holds the engine it held before. The missing-tables error means that the
    connection was made and one of the three tables is absent; the analyzer
    then holds the new engine, which is not disposed of. (Exceptions of
    [int()] and of the database library are not enumerated.) *)
Theorem connect_hashr_failure (self : Analyzer) (env : Env)
    (self' : Analyzer) (e : exn) :
  connect_hashr self env = Raise self' e →
  (e = ConfigError →
   ¬ config_complete env ∧ hashr_conn self' = hashr_conn self)
  ∧ (e = ConnectionError →
     config_complete env ∧ reachable env = false
     ∧ hashr_conn self' = hashr_conn self)
  ∧ (e = MissingTablesError →
     config_complete env ∧ reachable env = true
     ∧ (∃ t, t ∈ required_tables ∧ t ∉ table_names (database env))
     ∧ hashr_conn self' = Some (mkEngine (database env) [] 0)).
Proof.
  unfold connect_hashr. intros Hret.
  destruct (forallb id _) eqn:Hconf; cbn [negb] in Hret.
  - assert (config_complete env) as Hc.
    { simpl in Hconf. repeat (apply andb_prop in Hconf as [? Hconf]).
      by split_and!. }
    destruct (reachable env); cbn [negb] in Hret.
    + destruct (forallb _ required_tables) eqn:Htables; [done|].
      cbn [negb] in Hret. injection Hret as <- <-.
      split_and!; [done|done|]. intros _.
      split_and!; [done|done| |done].
      apply forallb_false in Htables as (t & Hin & Ht). exists t.
      split; [done|]. by apply bool_decide_eq_false in Ht.
    + injection Hret as <- <-. split_and!; [done| |done].
      intros _. by split_and!.
  - injection Hret as <- <-. split_and!; [|done|done].
    intros _. split; [|done].
    intros (? & ? & ? & ? & ? & ?). simpl in Hconf.
    repeat match goal with H : _ = true |- _ => rewrite H in Hconf end.
    done.
Qed.

Lemma connect_hashr_failure_witness :
  ∃ self',
    connect_hashr (new_analyzer blank_output) incomplete_env
    = Raise self' MissingTablesError
    ∧ reachable incomplete_env = true
    ∧ hashr_conn self' = Some (mkEngine (database incomplete_env) [] 0).
Proof.
  destruct (connect_hashr (new_analyzer blank_output) incomplete_env)
    as [|self' e] eqn:Hconn; [by vm_compute in Hconn|].
  assert (e = MissingTablesError) as -> by (by vm_compute in Hconn; injection Hconn).
  destruct (connect_hashr_failure _ _ _ _ Hconn) as (_ & _ & Hmiss).
  destruct (Hmiss eq_refl) as (_ & Hr & _ & Heng).
  by exists self'.
Defined.

(** ** More on [annotate_event] *)

(** X11: [annotate_event] leaves the payload of the event, its tags and all
    attributes other than [hashR_sample_sources] in place; it adds the
    [known-hash] tag, commits once, and changes nothing of the analyzer but
    the zero-byte counter, which grows by one exactly for the digest of the
    empty input. *)
Theorem annotate_event_frame (self : Analyzer) (hash_value : string)
    (sources : sources_arg) (event : Event) :
  let r := annotate_event self hash_value sources event in
  source r.2 = source event
  ∧ tags event ⊆ tags r.2
  ∧ "known-hash" ∈ tags r.2
  ∧ (∀ k, k ≠ "hashR_sample_sources" →
          attributes r.2 !! k = attributes event !! k)
  ∧ commits r.2 = S (commits event)
  ∧ r.1
    = (if decide (hash_value = zerobyte_hash) then incr_zerobyte self
       else self).
Proof.
  unfold annotate_event. case_decide as Hz; simpl.
  - split_and!; try done; set_solver.
  - destruct (sources_truthy sources); simpl.
    + split_and!; try done; [set_solver|set_solver|].
      intros k Hk. rewrite lookup_union_r; [done|].
      by apply lookup_singleton_ne.
    + split_and!; try done; set_solver.
Qed.

(** X12: for a hash other than the digest of the empty input,
    [annotate_event] sets the attribute [hashR_sample_sources] to the
    elements of a non-empty provenance set, and leaves the attribute as it
    was when it is given [False] or an empty set; the [zerobyte-file] tag is
    not added. *)
Theorem annotate_event_sources (self : Analyzer) (hash_value : string)
    (sources : sources_arg) (event : Event) :
  hash_value ≠ zerobyte_hash →
  let r := annotate_event self hash_value sources event in
  attributes r.2 !! "hashR_sample_sources"
  = match sources with
    | SourcesSet s =>
        if decide (s = ∅) then attributes event !! "hashR_sample_sources"
        else Some (elements s)
    | SourcesFalse => attributes event !! "hashR_sample_sources"
    end
  ∧ tags r.2 = tags event ∪ {["known-hash"]}.
Proof.
  intros Hz. unfold annotate_event. rewrite decide_False by done.
  destruct sources as [|s]; simpl.
  - split; [done|set_solver].
  - case_decide as Hs.
    + rewrite bool_decide_true by done. simpl. split; [done|set_solver].
    + rewrite bool_decide_false by done. simpl. split; [|set_solver].
      apply lookup_union_Some_l. by apply lookup_singleton_eq.
Qed.

Lemma annotate_event_sources_witness :
  H1 ≠ zerobyte_hash
  ∧ attributes
      (annotate_event (scenario_analyzer true) H1
         (SourcesSet {["imageA:src1"]}) (event_with "sha256" (VStr H1))).2
    !! "hashR_sample_sources"
    = Some ["imageA:src1"].
Proof.
  assert (H1 ≠ zerobyte_hash) as Hne by done.
  split; [done|].
  rewrite (proj1 (annotate_event_sources (scenario_analyzer true) H1
                    (SourcesSet {["imageA:src1"]})
                    (event_with "sha256" (VStr H1)) Hne)).
  rewrite decide_False.
  - f_equal; apply elements_singleton.
  - apply non_empty_singleton_L.
Defined.

(** X13: annotating an event a second time with the same hash and sources
    changes neither its tags nor its attributes; only another commit is
    made. *)
Theorem annotate_event_idempotent (self self' : Analyzer)
    (hash_value : string) (sources : sources_arg) (event : Event) :
  let once := (annotate_event self hash_value sources event).2 in
  let twice := (annotate_event self' hash_value sources once).2 in
  tags twice = tags once
  ∧ attributes twice = attributes once
  ∧ commits twice = S (commits once).
Proof.
  unfold annotate_event. case_decide as Hz; simpl.
  - split_and!; [set_solver|done|done].
  - destruct (sources_truthy sources); simpl.
    + split_and!; [set_solver| |done].
      by rewrite (assoc_L (∪)), (idemp_L (∪)).
    + split_and!; [set_solver|done|done].
Qed.

(** ** The HashIndex *)

Lemma collect_event_counters i event st st' :
  collect_event i event st = Ok st' →
  total_event_counter st' = S (total_event_counter st)
  ∧ error_hash_counter st'
    = error_hash_counter st + match hash_key event with Some _ => 0 | None => 1 end.
Proof.
  unfold hash_key.
  destruct (first_field return_fields (source event)) as [| | |s|l] eqn:Hv.
  1-3,5: unfold collect_event; rewrite Hv;
    destruct (truthy _); cbn [negb py_len]; try done;
    try (by intros [= <-]; simpl; split; lia).
  - destruct (length l =? 64); cbn [negb]; [done|].
    intros [= <-]. simpl. split; lia.
  - rewrite (collect_event_string i event st s Hv).
    case_bool_decide; intros [= <-]; simpl; split; lia.
Qed.

Lemma filed_count_setdefault_update s (i : nat) d :
  filed_count (PyDict.setdefault_update s [] (λ l, l ++ [i]) d)
  = S (filed_count d).
Proof.
  unfold filed_count.
  induction d as [|[k l] d IH]; csimpl; [done|].
  case_decide; csimpl.
  - rewrite length_app. simpl. lia.
  - rewrite IH. lia.
Qed.

Lemma collect_events_counters events i st st' :
  collect_events i events st = Ok st' →
  total_event_counter st' = total_event_counter st + length events
  ∧ error_hash_counter st' + filed_count (hash_events_dict st')
    = error_hash_counter st + filed_count (hash_events_dict st)
      + length events
  ∧ error_hash_counter st'
    = error_hash_counter st
      + length (filter (λ e, hash_key e = None) events).
Proof.
  revert i st. induction events as [|e events IH]; intros i st; simpl.
  - intros [= <-]. split_and!; lia.
  - destruct (collect_event i e st) as [st1|] eqn:Hstep; [|done].
    intros (Ht & Hsum & Herr)%IH.
    destruct (collect_event_counters _ _ _ _ Hstep) as [Ht1 He1].
    pose proof (collect_event_dict _ _ _ _ Hstep) as Hd1.
    rewrite filter_cons.
    destruct (hash_key e) as [s|] eqn:Hkey.
    + rewrite decide_False by done. rewrite Hd1 in Hsum.
      rewrite filed_count_setdefault_update in Hsum. split_and!; lia.
    + rewrite decide_True by done. rewrite Hd1 in Hsum. simpl.
      split_and!; lia.
Qed.

(** X14: when the collection loop of [run] reaches the end of the stream,
    the event counter is the number of events, the error counter is the
    number of events without a usable hash, and every event is either
    counted as an error or filed in the HashIndex. *)
Theorem collection_accounts_for_every_event (events : list Event)
    (st : Collected) :
  collect_events 0 events collect_start = Ok st →
  total_event_counter st = length events
  ∧ error_hash_counter st = length (filter (λ e, hash_key e = None) events)
  ∧ error_hash_counter st + filed_count (hash_events_dict st)
    = length events.
Proof.
  intros (Ht & Hsum & Herr)%collect_events_counters.
  change (filed_count (hash_events_dict collect_start)) with 0 in Hsum.
  simpl in *. split_and!; [done|done|lia].
Qed.

Lemma collection_accounts_for_every_event_witness :
  ∃ st,
    collect_events 0 scenario_events collect_start = Ok st
    ∧ total_event_counter st = 3
    ∧ error_hash_counter st + filed_count (hash_events_dict st) = 3.
Proof.
  destruct (collect_events 0 scenario_events collect_start) as [st|]
    eqn:Hst; [|by vm_compute in Hst].
  destruct (collection_accounts_for_every_event _ _ Hst) as (? & _ & ?).
  by exists st.
Defined.

Lemma elem_of_refs_of events i j k :
  j ∈ refs_of i events k
  ↔ i ≤ j ∧ ∃ e, events !! (j - i) = Some e ∧ hash_key e = Some k.
Proof.
  revert i. induction events as [|e events IH]; intros i; simpl.
  - split; [by intros ?%elem_of_nil|]. by intros (_ & ? & ? & _).
  - rewrite elem_of_app, IH. split.
    + intros [Hhere|(Hle & e' & He' & Hk)].
      * case_bool_decide as Hk; [|by apply elem_of_nil in Hhere].
        apply list_elem_of_singleton in Hhere as ->.
        split; [lia|]. exists e. by rewrite Nat.sub_diag.
      * split; [lia|]. exists e'. split; [|done].
        replace (j - i) with (S (j - S i)) by lia. done.
    + intros (Hle & e' & He' & Hk).
      destruct (decide (j = i)) as [->|Hne].
      * left. rewrite Nat.sub_diag in He'. injection He' as <-.
        rewrite bool_decide_true by done. by apply list_elem_of_singleton.
      * right. split; [lia|]. exists e'. split; [|done].
        replace (j - i) with (S (j - S i)) in He' by lia. done.
Qed.

Lemma refs_of_sorted events i k :
  StronglySorted lt (refs_of i events k) ∧ Forall (le i) (refs_of i events k).
Proof.
  revert i. induction events as [|e events IH]; intros i; simpl.
  - split; constructor.
  - destruct (IH (S i)) as [Hs Hf]. case_bool_decide; simpl.
    + split.
      * constructor; [done|]. eapply Forall_impl; [exact Hf|]. simpl. lia.
      * constructor; [done|]. eapply Forall_impl; [exact Hf|]. simpl. lia.
    + split; [done|]. eapply Forall_impl; [exact Hf|]. simpl. lia.
Qed.

Lemma collect_events_NoDup_keys events i st st' :
  collect_events i events st = Ok st' →
  NoDup (PyDict.keys (hash_events_dict st)) →
  NoDup (PyDict.keys (hash_events_dict st')).
Proof.
  revert i st. induction events as [|e events IH]; intros i st; simpl.
  - by intros [= <-].
  - destruct (collect_event i e st) as [st1|] eqn:Hstep; [|done].
    intros Hrest Hnd. apply (IH _ _ Hrest).
    rewrite (collect_event_dict _ _ _ _ Hstep).
    destruct (hash_key e); [|done]. by apply NoDup_keys_setdefault_update.
Qed.

Lemma collected_get events st k :
  collect_events 0 events collect_start = Ok st →
  PyDict.get k (hash_events_dict st)
  = match refs_of 0 events k with
    | [] => None
    | refs => Some refs
    end.
Proof.
  intros Hst. rewrite get_to_gmap, (collect_events_lookup _ _ _ _ _ Hst).
  simpl. unfold PyDict.to_gmap. simpl. rewrite lookup_empty. simpl.
  by destruct (refs_of 0 events k).
Qed.

(** X15: the HashIndex built by the collection loop has one key per distinct
    usable hash of the stream; the list kept under a key is not empty and
    holds, in stream order and without repetition, exactly the events
    carrying that hash. *)
Theorem hash_index_content (events : list Event) (st : Collected)
    (k : string) :
  collect_events 0 events collect_start = Ok st →
  NoDup (PyDict.keys (hash_events_dict st))
  ∧ (k ∈ PyDict.keys (hash_events_dict st)
     ↔ ∃ e, e ∈ events ∧ hash_key e = Some k)
  ∧ ∀ refs, PyDict.get k (hash_events_dict st) = Some refs →
      refs ≠ []
      ∧ StronglySorted lt refs
      ∧ ∀ j, j ∈ refs ↔ ∃ e, events !! j = Some e ∧ hash_key e = Some k.
Proof.
  intros Hst. pose proof (collected_get events st k Hst) as Hget.
  split_and!.
  - apply (collect_events_NoDup_keys _ _ _ _ Hst). constructor.
  - rewrite elem_of_keys, <-get_to_gmap, Hget. split.
    + intros [refs Hrefs].
      destruct (refs_of 0 events k) as [|j refs'] eqn:Hr; [done|].
      assert (j ∈ refs_of 0 events k) as Hj by (rewrite Hr; left).
      apply elem_of_refs_of in Hj as (_ & e & He & Hk).
      exists e. split; [|done]. by eapply list_elem_of_lookup_2.
    + intros (e & [j Hj]%list_elem_of_lookup_1 & Hk).
      assert (j ∈ refs_of 0 events k) as Hin.
      { apply elem_of_refs_of. split; [lia|]. exists e.
        by rewrite Nat.sub_0_r. }
      destruct (refs_of 0 events k); [by apply elem_of_nil in Hin|eauto].
  - intros refs Hrefs. rewrite Hget in Hrefs.
    assert (refs = refs_of 0 events k) as ->.
    { by destruct (refs_of 0 events k); [|injection Hrefs]. }
    split_and!.
    + intros Hnil. by rewrite Hnil in Hrefs.
    + apply refs_of_sorted.
    + intros j. rewrite elem_of_refs_of, Nat.sub_0_r. split.
      * by intros [_ ?].
      * intros ?. split; [lia|done].
Qed.

Lemma hash_index_content_witness :
  ∃ st,
    collect_events 0 scenario_events collect_start = Ok st
    ∧ NoDup (PyDict.keys (hash_events_dict st))
    ∧ PyDict.get H1 (hash_events_dict st) = Some [0; 1].
Proof.
  destruct (collect_events 0 scenario_events collect_start) as [st|]
    eqn:Hst; [|by vm_compute in Hst].
  destruct (hash_index_content scenario_events st H1 Hst) as (Hnd & _ & _).
  exists st. split_and!; [done|done|].
  rewrite (collected_get _ _ H1 Hst). reflexivity.
Defined.

(** ** The annotation loops *)

Lemma annotate_event_snd self self' h s e :
  (annotate_event self h s e).2 = (annotate_event self' h s e).2.
Proof.
  unfold annotate_event. case_decide; simpl; [done|].
  by destruct (sources_truthy s).
Qed.

Lemma annotate_event_fst self h s e :
  (annotate_event self h s e).1
  = (if decide (h = zerobyte_hash) then incr_zerobyte else id) self.
Proof.
  unfold annotate_event. case_decide; simpl; [done|].
  by destruct (sources_truthy s).
Qed.

Lemma occ_pos i refs : i ∈ refs → 0 < occ i refs.
Proof.
  intros Hi. unfold occ.
  assert (i ∈ filter (λ x, x = i) refs) as Hin
    by (by apply list_elem_of_filter).
  destruct (filter _ refs); [by apply elem_of_nil in Hin|simpl; lia].
Qed.

Lemma iter_id {A} n (x : A) : Nat.iter n id x = x.
Proof. induction n as [|n IH]; simpl; [done|]. by rewrite IH. Qed.

Lemma get_not_in_keys {V} k (d : PyDict.t V) :
  k ∉ PyDict.keys d → PyDict.get k d = None.
Proof.
  intros Hk. rewrite get_to_gmap. apply eq_None_not_Some.
  by rewrite <-elem_of_keys.
Qed.

Lemma annotate_events_effect self0 h s refs w n :
  Forall (λ i, i < length (heap w)) refs →
  ∃ w', annotate_events h s refs w n = (w', n + length refs)
    ∧ length (heap w') = length (heap w)
    ∧ (∀ j, heap w' !! j
            = Nat.iter (occ j refs) (λ e, (annotate_event self0 h s e).2)
                <$> heap w !! j)
    ∧ analyzer w'
      = Nat.iter (length refs)
          (if decide (h = zerobyte_hash) then incr_zerobyte else id)
          (analyzer w).
Proof.
  revert w n. induction refs as [|i refs IH]; intros w n Hb.
  - exists w. simpl. rewrite Nat.add_0_r. split_and!; try done.
    intros j. by destruct (heap w !! j).
  - apply Forall_cons in Hb as [Hi Hb].
    destruct (lookup_lt_is_Some_2 _ _ Hi) as [event Hev].
    simpl. rewrite Hev.
    destruct (annotate_event (analyzer w) h s event) as [self1 ev1] eqn:Han.
    assert (ev1 = (annotate_event self0 h s event).2) as Hev1.
    { rewrite (annotate_event_snd self0 (analyzer w)). by rewrite Han. }
    assert (self1
            = (if decide (h = zerobyte_hash) then incr_zerobyte else id)
                (analyzer w)) as Hself1.
    { rewrite <-annotate_event_fst with (s := s) (e := event).
      by rewrite Han. }
    destruct (IH (mkWorld self1 (<[i:=ev1]> (heap w))) (S n))
      as (w' & Heq & Hlen & Hheap & Han').
    { simpl. by rewrite length_insert. }
    exists w'. split_and!.
    + rewrite Heq. f_equal. lia.
    + rewrite Hlen. simpl. by rewrite length_insert.
    + intros j. rewrite Hheap, occ_cons. simpl.
      destruct (decide (i = j)) as [<-|Hne].
      * rewrite list_lookup_insert_eq by done. rewrite Hev.
        cbn [Nat.add fmap option_fmap option_map]. rewrite Nat.iter_succ_r.
        by rewrite Hev1.
      * by rewrite list_lookup_insert_ne.
    + rewrite Han', Hself1. simpl. symmetry. apply Nat.iter_succ_r.
Qed.

Section annotation_loop.
Context (self0 : Analyzer) (arg : gset string → sources_arg).
Context (dict : PyDict.t (list nat)) (events : list Event).
Hypothesis Hocc : ∀ k refs j,
  PyDict.get k dict = Some refs →
  occ j refs = if bool_decide (events !! j ≫= hash_key = Some k) then 1 else 0.

Lemma refs_in_bounds k refs :
  PyDict.get k dict = Some refs → Forall (λ i, i < length events) refs.
Proof.
  intros Hget. apply Forall_forall. intros i Hi%occ_pos.
  rewrite (Hocc k refs i Hget) in Hi. case_bool_decide as Hk; [|lia].
  destruct (events !! i) eqn:He; [|done]. by eapply lookup_lt_Some.
Qed.

Lemma annotate_matches_effect matches w n :
  NoDup matches.*1 →
  (∀ k, k ∈ matches.*1 → is_Some (PyDict.get k dict)) →
  length (heap w) = length events →
  ∃ w', annotate_matches arg dict matches w n
        = Return w' (n + tagged_count dict matches)
    ∧ length (heap w') = length events
    ∧ (∀ j, heap w' !! j
            = (λ e, match events !! j ≫= hash_key with
                    | Some k =>
                        match PyDict.get k matches with
                        | Some s => (annotate_event self0 k (arg s) e).2
                        | None => e
                        end
                    | None => e
                    end) <$> heap w !! j)
    ∧ analyzer w'
      = Nat.iter (zerobyte_count dict matches) incr_zerobyte (analyzer w).
Proof.
  revert w n. induction matches as [|[k s] matches IH]; intros w n Hnd Hin Hlen.
  - exists w. unfold tagged_count, zerobyte_count. simpl.
    rewrite Nat.add_0_r. split_and!; try done.
    intros j. destruct (heap w !! j); simpl; [|done].
    by destruct (events !! j ≫= hash_key).
  - csimpl in Hnd. apply NoDup_cons in Hnd as [Hk Hnd].
    destruct (Hin k) as [refs Hget]; [csimpl; left|].
    pose proof (refs_in_bounds k refs Hget) as Hb. rewrite <-Hlen in Hb.
    destruct (annotate_events_effect self0 k (arg s) refs w n Hb)
      as (w1 & Heq1 & Hlen1 & Hheap1 & Han1).
    destruct (IH w1 (n + length refs) Hnd) as (w' & Heq & Hlen' & Hheap & Han).
    { intros k' Hk'. apply Hin. csimpl. by right. }
    { by rewrite Hlen1. }
    exists w'. split_and!.
    + simpl. rewrite Hget, Heq1, Heq. f_equal.
      unfold tagged_count. csimpl. rewrite Hget. simpl. lia.
    + done.
    + intros j. rewrite Hheap, Hheap1, (Hocc k refs j Hget).
      destruct (events !! j ≫= hash_key) as [k'|] eqn:Hkey.
      * destruct (decide (k' = k)) as [->|Hne].
        -- rewrite bool_decide_true by done.
           rewrite (get_not_in_keys k matches) by done.
           simpl. rewrite decide_True by done.
           by destruct (heap w !! j).
        -- rewrite bool_decide_false by congruence.
           simpl. rewrite decide_False by done.
           by destruct (heap w !! j).
      * rewrite bool_decide_false by done. by destruct (heap w !! j).
    + rewrite Han, Han1. unfold zerobyte_count. simpl.
      destruct (decide (zerobyte_hash = k)) as [<-|Hne].
      * rewrite decide_True by done.
        rewrite (get_not_in_keys zerobyte_hash matches) by done.
        simpl. by rewrite Hget.
      * rewrite (decide_False (P := k = zerobyte_hash)) by done.
        by rewrite iter_id.
Qed.

End annotation_loop.

Lemma merge_results_NoDup m results :
  NoDup (PyDict.keys m) → NoDup (PyDict.keys (merge_results m results)).
Proof.
  revert m. induction results as [|entry results IH]; intros m Hm; [done|].
  simpl. apply IH. by apply NoDup_keys_setdefault_update.
Qed.

Lemma query_batches_NoDup with_sources eng m batches :
  NoDup (PyDict.keys m) →
  NoDup (PyDict.keys (query_batches with_sources eng m batches).2).
Proof.
  revert eng m. induction batches as [|b batches IH]; intros eng m Hm;
    [done|].
  simpl. apply IH. by apply merge_results_NoDup.
Qed.

Lemma collected_occ events st k refs j :
  collect_events 0 events collect_start = Ok st →
  PyDict.get k (hash_events_dict st) = Some refs →
  occ j refs = if bool_decide (events !! j ≫= hash_key = Some k) then 1 else 0.
Proof.
  intros Hst Hget. rewrite (collected_get _ _ _ Hst) in Hget.
  assert (refs = refs_of 0 events k) as ->.
  { by destruct (refs_of 0 events k); [|injection Hget]. }
  rewrite occ_refs_of, Nat.sub_0_r.
  destruct (events !! j) as [e|]; simpl; [|done].
  destruct (decide (hash_key e = Some k)).
  - by rewrite !bool_decide_true by (done || (split; [lia|done])).
  - rewrite !bool_decide_false; [done|done|]. by intros [_ ?].
Qed.

(** The annotation loops of a run that got its MatchResult: they return,
    and what they leave is known. *)
Lemma annotation_after_lookup events st self1 self2 m :
  collect_events 0 events collect_start = Ok st →
  check_against_hashr self1 (PyDict.keys (hash_events_dict st))
  = Return self2 m →
  ∃ w,
    annotate_matches (sources_of self2) (hash_events_dict st)
      (PyDict.items m) (mkWorld self2 events) 0
    = Return w (tagged_count (hash_events_dict st) m)
    ∧ heap w = annotated self2 m <$> events
    ∧ analyzer w
      = Nat.iter (zerobyte_count (hash_events_dict st) m) incr_zerobyte self2.
Proof.
  intros Hst Hrun.
  pose proof Hrun as (eng & size & batches & [Hc _] & _ & _ & _ & Hm)
    %check_against_hashr_Return.
  destruct (annotate_matches_effect self2 (sources_of self2)
              (hash_events_dict st) events
              (λ k refs j, collected_occ events st k refs j Hst)
              (PyDict.items m) (mkWorld self2 events) 0)
    as (w & Heq & Hlen & Hheap & Han).
  - rewrite Hm. apply query_batches_NoDup. constructor.
  - intros k Hk.
    destruct (check_against_hashr_keys _ _ _ _ eng k Hrun Hc Hk) as [Hin _].
    rewrite get_to_gmap. by apply elem_of_keys.
  - done.
  - exists w. split_and!; [done| |done].
    apply list_eq. intros j. rewrite Hheap, list_lookup_fmap. simpl.
    destruct (events !! j) as [e|]; simpl; [|done].
    unfold annotated. by destruct (hash_key e).
Qed.

(** ** [run] as a whole *)

Lemma iter_incr_zerobyte n self :
  Nat.iter n incr_zerobyte self
  = mkAnalyzer (n + zerobyte_file_counter self) (known_hash_event_counter self)
      (unique_known_hash_counter self) (hashr_conn self)
      (add_source_attribute self) (query_batch_size self) (output self).
Proof.
  induction n as [|n IH]; simpl; [by destruct self|]. by rewrite IH.
Qed.

Lemma collect_event_Err i event st x :
  collect_event i event st = Err x ↔ x = TypeError ∧ aborting event.
Proof.
  unfold collect_event, aborting.
  destruct (first_field return_fields (source event)) as [|b|n|s|l];
    cbn [py_len].
  - simpl. split; [done|]. by intros [_ [? _]].
  - destruct (truthy (VBool b)); cbn [negb].
    + split; [intros [= <-]; eauto|]. by intros [-> _].
    + split; [done|]. by intros [_ [? _]].
  - destruct (truthy (VInt n)); cbn [negb].
    + split; [intros [= <-]; eauto|]. by intros [-> _].
    + split; [done|]. by intros [_ [? _]].
  - destruct (truthy (VStr s)); cbn [negb].
    + destruct (String.length s =? 64); cbn [negb].
      * split; [done|]. by intros [_ [_ [?|(? & ? & ?)]]].
      * split; [done|]. by intros [_ [_ [?|(? & ? & ?)]]].
    + split; [done|]. by intros [_ [? _]].
  - destruct (truthy (VList l)); cbn [negb].
    + destruct (length l =? 64) eqn:Hlen; cbn [negb].
      * apply Nat.eqb_eq in Hlen.
        split; [intros [= <-]; split; [done|]; split; [done|]; right; eauto|].
        by intros [-> _].
      * apply Nat.eqb_neq in Hlen. split; [done|].
        intros [_ [_ [?|(l' & [= <-] & ?)]]]; done.
    + split; [done|]. by intros [_ [? _]].
Qed.

Lemma collect_events_Err events i st x :
  collect_events i events st = Err x
  ↔ x = TypeError ∧ ∃ e, e ∈ events ∧ aborting e.
Proof.
  revert i st. induction events as [|e events IH]; intros i st; simpl.
  - split; [done|]. by intros [_ (? & ?%elem_of_nil & _)].
  - destruct (collect_event i e st) as [st1|y] eqn:Hstep.
    + rewrite IH. split.
      * intros [-> (e' & He' & Hab)]. split; [done|]. exists e'.
        split; [by right|done].
      * intros [-> (e' & [->|He']%elem_of_cons & Hab)].
        -- assert (collect_event i e st = Err TypeError) as Herr
             by (by apply collect_event_Err).
           by rewrite Herr in Hstep.
        -- split; [done|]. by exists e'.
    + apply collect_event_Err in Hstep as [-> Hab]. split.
      * intros [= <-]. split; [done|]. exists e. split; [left|done].
      * by intros [-> _].
Qed.

Lemma collected_keys events st k :
  collect_events 0 events collect_start = Ok st →
  k ∈ PyDict.keys (hash_events_dict st)
  ↔ ∃ e, e ∈ events ∧ hash_key e = Some k.
Proof.
  intros Hst. rewrite elem_of_keys, <-get_to_gmap, (collected_get _ _ _ Hst).
  split.
  - intros [refs Hrefs].
    destruct (refs_of 0 events k) as [|j refs'] eqn:Hr; [done|].
    assert (j ∈ refs_of 0 events k) as Hj by (rewrite Hr; left).
    apply elem_of_refs_of in Hj as (_ & e & He & Hk).
    exists e. split; [|done]. by eapply list_elem_of_lookup_2.
  - intros (e & [j Hj]%list_elem_of_lookup_1 & Hk).
    assert (j ∈ refs_of 0 events k) as Hin.
    { apply elem_of_refs_of. split; [lia|]. exists e.
      by rewrite Nat.sub_0_r. }
    destruct (refs_of 0 events k); [by apply elem_of_nil in Hin|eauto].
Qed.

Lemma collected_nonempty events st e :
  collect_events 0 events collect_start = Ok st →
  e ∈ events → is_Some (hash_key e) → hash_events_dict st ≠ [].
Proof.
  intros Hst He [k Hk] Hnil.
  assert (k ∈ PyDict.keys (hash_events_dict st)) as Hin
    by (apply (collected_keys events st k Hst); eauto).
  rewrite Hnil in Hin. by apply elem_of_nil in Hin.
Qed.

Lemma length_refs_of events i k :
  length (refs_of i events k)
  = length (filter (λ e, hash_key e = Some k) events).
Proof.
  revert i. induction events as [|e events IH]; intros i; simpl; [done|].
  rewrite length_app, IH, filter_cons.
  case_bool_decide; [by rewrite decide_True|by rewrite decide_False].
Qed.

Lemma collected_refs events st k :
  collect_events 0 events collect_start = Ok st →
  default [] (PyDict.get k (hash_events_dict st)) = refs_of 0 events k.
Proof.
  intros Hst. rewrite (collected_get _ _ _ Hst).
  by destruct (refs_of 0 events k).
Qed.

Lemma length_filter_or {A} (P Q : A → Prop) `{!∀ x, Decision (P x)}
    `{!∀ x, Decision (Q x)} (l : list A) :
  (∀ x, P x → Q x → False) →
  length (filter (λ x, P x ∨ Q x) l)
  = length (filter P l) + length (filter Q l).
Proof.
  intros Hdisj. induction l as [|x l IH]; [done|].
  rewrite !filter_cons.
  destruct (decide (P x)) as [HP|HP]; destruct (decide (Q x)) as [HQ|HQ].
  - by destruct (Hdisj x).
  - rewrite decide_True by (by left). simpl. by rewrite IH.
  - rewrite decide_True by (by right). simpl. rewrite IH. lia.
  - rewrite decide_False by (by intros [?|?]). done.
Qed.

Lemma is_matched_cons k keys e :
  is_matched (k :: keys) e = true
  ↔ hash_key e = Some k ∨ is_matched keys e = true.
Proof.
  unfold is_matched. destruct (hash_key e) as [h|].
  - rewrite !bool_decide_eq_true, elem_of_cons. split.
    + intros [->|?]; eauto.
    + intros [[= ->]|?]; eauto.
  - split; [done|]. by intros [?|?].
Qed.

Lemma is_matched_nil e : is_matched [] e = false.
Proof.
  unfold is_matched. destruct (hash_key e); [|done].
  rewrite bool_decide_false; [done|]. apply not_elem_of_nil.
Qed.

Lemma filter_is_matched_nil (events : list Event) :
  filter (λ e, is_matched [] e = true) events = [].
Proof.
  induction events as [|e events IH]; [done|].
  rewrite filter_cons, decide_False; [done|]. by rewrite is_matched_nil.
Qed.

Lemma tagged_count_matched events st (m : PyDict.t (gset string)) :
  collect_events 0 events collect_start = Ok st →
  NoDup (PyDict.keys m) →
  tagged_count (hash_events_dict st) m
  = length (filter (λ e, is_matched (PyDict.keys m) e = true) events).
Proof.
  intros Hst. unfold tagged_count, PyDict.keys.
  induction m as [|[k s] m IH]; csimpl; intros Hnd.
  - by rewrite filter_is_matched_nil.
  - apply NoDup_cons in Hnd as [Hk Hnd].
    rewrite (collected_refs _ _ _ Hst), length_refs_of, IH by done.
    rewrite <-length_filter_or.
    + f_equal. apply list_filter_iff. intros e. by rewrite is_matched_cons.
    + intros e Hkey Hm. unfold is_matched in Hm. rewrite Hkey in Hm.
      by apply bool_decide_eq_true in Hm.
Qed.

Lemma zerobyte_count_events events st (m : PyDict.t (gset string)) :
  collect_events 0 events collect_start = Ok st →
  zerobyte_count (hash_events_dict st) m
  = zerobyte_events (PyDict.keys m) events.
Proof.
  intros Hst. unfold zerobyte_count, zerobyte_events.
  rewrite (collected_refs _ _ _ Hst), length_refs_of.
  destruct (PyDict.get zerobyte_hash m) as [s|] eqn:Hget.
  - rewrite bool_decide_true; [done|].
    apply elem_of_keys. rewrite <-get_to_gmap. eauto.
  - rewrite bool_decide_false; [done|].
    rewrite elem_of_keys, <-get_to_gmap, Hget. by intros [? ?].
Qed.

Lemma collected_len events st :
  collect_events 0 events collect_start = Ok st →
  PyDict.len (hash_events_dict st)
  = size (list_to_set (C:=gset string) (omap hash_key events)).
Proof.
  intros Hst.
  assert (NoDup (PyDict.keys (hash_events_dict st))) as Hnd.
  { apply (collect_events_NoDup_keys _ _ _ _ Hst). constructor. }
  transitivity (length (PyDict.keys (hash_events_dict st))).
  { unfold PyDict.len, PyDict.keys. by rewrite length_fmap. }
  rewrite <-(size_list_to_set (C:=gset string)) by done.
  f_equal. apply set_eq. intros k.
  rewrite !elem_of_list_to_set, list_elem_of_omap.
  apply (collected_keys _ _ _ Hst).
Qed.

(** The main path of [run]: connection, collection, lookup and annotation
    all return. *)
Lemma run_with_hashes self env events self1 b st self2 m :
  connect_hashr self env = Return self1 b →
  collect_events 0 events collect_start = Ok st →
  hash_events_dict st ≠ [] →
  check_against_hashr self1 (PyDict.keys (hash_events_dict st))
  = Return self2 m →
  let zero := zerobyte_count (hash_events_dict st) m in
  let self3 :=
    set_unique_known (PyDict.len m) (Nat.iter zero incr_zerobyte self2) in
  let figures (render : nat → nat → nat → nat → nat → nat → string) :=
    render (total_event_counter st) (PyDict.len m)
      (PyDict.len (hash_events_dict st))
      (tagged_count (hash_events_dict st) m)
      (zero + zerobyte_file_counter self2) (error_hash_counter st) in
  let out :=
    mkOutput "SUCCESS" "NOTE" (figures summary_text)
      (figures summary_markdown) in
  run self env events
  = Return (mkWorld (set_output out self3) (annotated self2 m <$> events)) out.
Proof.
  intros Hconn Hst Hne Hcheck.
  destruct (annotation_after_lookup events st self1 self2 m Hst Hcheck)
    as (w & Heq & Hheap & Han).
  assert ((PyDict.len (hash_events_dict st) <=? 0) = false) as Hlen.
  { by destruct (hash_events_dict st). }
  unfold run. rewrite Hconn, Hst. lazy zeta. rewrite Hlen, Hcheck.
  fold (sources_of self2). rewrite Heq. lazy beta iota zeta.
  rewrite Hheap, Han. rewrite iter_incr_zerobyte. reflexivity.
Qed.

Lemma run_Return self env events w out :
  run self env events = Return w out →
  ∃ self1 b st,
    connect_hashr self env = Return self1 b
    ∧ collect_events 0 events collect_start = Ok st
    ∧ ((hash_events_dict st = []
        ∧ w = mkWorld (set_output out self1) events)
       ∨ (hash_events_dict st ≠ []
          ∧ ∃ self2 m,
              check_against_hashr self1 (PyDict.keys (hash_events_dict st))
              = Return self2 m)).
Proof.
  unfold run. intros Hrun.
  destruct (connect_hashr self env) as [self1 b|] eqn:Hconn; [|done].
  destruct (collect_events 0 events collect_start) as [st|] eqn:Hst; [|done].
  exists self1, b, st. split_and!; [done|done|].
  lazy zeta in Hrun.
  destruct (hash_events_dict st) as [|p d] eqn:Hd.
  - left. split; [done|]. cbn [PyDict.len length Nat.leb] in Hrun.
    by injection Hrun as <- <-.
  - right. split; [done|]. cbn [PyDict.len length Nat.leb] in Hrun.
    destruct (check_against_hashr self1 (PyDict.keys (p :: d)))
      as [self2 m|] eqn:Hcheck; [eauto|discriminate Hrun].
Qed.

Lemma matched_keys_early self env events self1 b st :
  connect_hashr self env = Return self1 b →
  collect_events 0 events collect_start = Ok st →
  hash_events_dict st = [] →
  matched_keys self env events = [].
Proof.
  intros Hconn Hst Hd. unfold matched_keys. by rewrite Hconn, Hst, Hd.
Qed.

Lemma matched_keys_main self env events self1 b st self2 m :
  connect_hashr self env = Return self1 b →
  collect_events 0 events collect_start = Ok st →
  hash_events_dict st ≠ [] →
  check_against_hashr self1 (PyDict.keys (hash_events_dict st))
  = Return self2 m →
  matched_keys self env events = PyDict.keys m.
Proof.
  intros Hconn Hst Hd Hcheck. unfold matched_keys.
  rewrite Hconn, Hst, Hcheck. by destruct (hash_events_dict st).
Qed.

Lemma is_matched_get (m : PyDict.t (gset string)) e :
  is_matched (PyDict.keys m) e = true
  ↔ ∃ k s, hash_key e = Some k ∧ PyDict.get k m = Some s.
Proof.
  unfold is_matched. destruct (hash_key e) as [k|].
  - rewrite bool_decide_eq_true, elem_of_keys, <-get_to_gmap. split.
    + intros [s Hs]. eauto.
    + intros (? & s & [= <-] & Hs). eauto.
  - split; [done|]. by intros (? & ? & ? & _).
Qed.

Lemma annotated_matched self m e :
  annotated self m e
  = if is_matched (PyDict.keys m) e
    then match hash_key e with
         | Some k =>
             (annotate_event self k
                (sources_of self (default ∅ (PyDict.get k m))) e).2
         | None => e
         end
    else e.
Proof.
  unfold annotated. destruct (is_matched (PyDict.keys m) e) eqn:Hm.
  - apply is_matched_get in Hm as (k & s & -> & ->). done.
  - destruct (hash_key e) as [k|] eqn:Hk; [|done].
    destruct (PyDict.get k m) as [s|] eqn:Hget; [|done].
    assert (is_matched (PyDict.keys m) e = true) as Hyes
      by (apply is_matched_get; eauto).
    congruence.
Qed.

(** X16: when [run] returns, every event of the stream is still in its
    place with its payload; an event whose hash key is in the MatchResult
    has been committed exactly once and carries the tag [known-hash] beside
    the tags it had; every other event is exactly as it was, uncommitted.
    (The stream yields each event object once.) *)
Theorem run_commits_matched_events_once (self : Analyzer) (env : Env)
    (events : list Event) (w : World) (out : Output) :
  run self env events = Return w out →
  length (heap w) = length events
  ∧ ∀ j e, events !! j = Some e →
      ∃ e', heap w !! j = Some e'
        ∧ source e' = source e
        ∧ if is_matched (matched_keys self env events) e
          then commits e' = S (commits e)
               ∧ tags e ∪ {["known-hash"]} ⊆ tags e'
          else e' = e.
Proof.
  intros Hrun.
  destruct (run_Return _ _ _ _ _ Hrun)
    as (self1 & b & st & Hconn & Hst
        & [[Hd ->]|(Hd & self2 & m & Hcheck)]).
  - rewrite (matched_keys_early _ _ _ _ _ _ Hconn Hst Hd). simpl.
    split; [done|]. intros j e He. exists e. split_and!; [done|done|].
    by rewrite is_matched_nil.
  - rewrite (matched_keys_main _ _ _ _ _ _ _ _ Hconn Hst Hd Hcheck).
    pose proof (run_with_hashes _ _ _ _ _ _ _ _ Hconn Hst Hd Hcheck) as Heq.
    lazy zeta in Heq. rewrite Heq in Hrun. injection Hrun as <- _.
    cbn [heap]. split; [by rewrite length_fmap|].
    intros j e He. exists (annotated self2 m e).
    rewrite list_lookup_fmap, He. split; [done|].
    rewrite annotated_matched.
    destruct (is_matched (PyDict.keys m) e) eqn:Hm; [|done].
    pose proof Hm as (k & s & Hk & Hget)%is_matched_get. rewrite Hk.
    unfold annotate_event. case_decide; simpl.
    + split_and!; [done|done|set_solver].
    + destruct (sources_truthy _); simpl; split_and!; (done || set_solver).
Qed.

Lemma run_commits_matched_events_once_witness :
  ∃ w out e',
    run (new_analyzer blank_output) (scenario_env true None) scenario_events
    = Return w out
    ∧ heap w !! 0 = Some e'
    ∧ commits e' = 1.
Proof.
  destruct (run (new_analyzer blank_output) (scenario_env true None)
              scenario_events) as [w out|w e] eqn:Hrun;
    [|vm_compute in Hrun; discriminate Hrun].
  destruct (run_commits_matched_events_once _ _ _ _ _ Hrun) as [_ Hev].
  destruct (Hev 0 (event_with "sha256" (VStr H1)) eq_refl)
    as (e' & He' & _ & Hm).
  assert (is_matched
            (matched_keys (new_analyzer blank_output)
               (scenario_env true None) scenario_events)
            (event_with "sha256" (VStr H1)) = true) as Hyes
    by (vm_compute; reflexivity).
  rewrite Hyes in Hm. destruct Hm as [Hc _].
  by exists w, out, e'.
Defined.

Lemma lookup_result_keys self eng size hashes self' m h :
  connected self eng → query_batch_size self = Some size → (1 ≤ size)%Z →
  check_against_hashr self hashes = Return self' m →
  h ∈ PyDict.keys m
  ↔ h ∈ hashes ∧ known (truthy (add_source_attribute self)) (db eng) h.
Proof.
  intros Hc Hsize Hpos Hrun.
  destruct (check_against_hashr_result _ _ _ _ _ _ Hc Hsize Hpos Hrun)
    as (batches & <- & ->).
  rewrite elem_of_keys, query_batches_keys, known_all_rows, elem_of_concat.
  split.
  - intros [[? [=]]|(batch & entry & Hb & [Hrow Hin]%elem_of_execute & <-)].
    split; eauto.
  - intros [(batch & Hin & Hb) (entry & Hrow & <-)]. right.
    exists batch, entry. split_and!; [done| |done].
    by apply elem_of_execute.
Qed.

Lemma lookup_result_provenance self eng size hashes self' m h s x :
  connected self eng → query_batch_size self = Some size → (1 ≤ size)%Z →
  truthy (add_source_attribute self) = true →
  check_against_hashr self hashes = Return self' m →
  PyDict.get h m = Some s →
  x ∈ s ↔ ∃ r, known_with_sources (db eng) h r ∧ x = descriptor r.
Proof.
  intros Hc Hsize Hpos Hflag Hrun Hget.
  assert (h ∈ hashes) as Hh.
  { eapply (lookup_result_keys self eng size hashes self' m h); try done.
    apply elem_of_keys. rewrite <-get_to_gmap. eauto. }
  assert (x ∈ s ↔ x ∈ provenance (PyDict.to_gmap m) h) as ->.
  { unfold provenance. by rewrite <-get_to_gmap, Hget. }
  destruct (check_against_hashr_result _ _ _ _ _ _ Hc Hsize Hpos Hrun)
    as (batches & <- & ->).
  rewrite Hflag, query_batches_provenance. split.
  - intros [[]%not_elem_of_empty
           |(batch & entry & Hb & [Hrow Hin]%elem_of_execute & Hk & Hx)].
    apply elem_of_all_rows_join in Hrow as (h' & r & Hr & ->).
    rewrite source_of_join in Hx. cbn [sample_hash_of] in Hk.
    subst h' x. by exists r.
  - intros (r & Hr & ->). right.
    apply elem_of_concat in Hh as (batch & Hin & Hb).
    exists batch, (RowJoin h (src_sha256 r) (sourceid r) (reponame r)).
    split_and!; [done| |done|by rewrite source_of_join].
    apply elem_of_execute. split; [|done].
    apply elem_of_all_rows_join. by exists h, r.
Qed.

Lemma connect_hashr_known_counter self env self1 b :
  connect_hashr self env = Return self1 b →
  known_hash_event_counter self1 = known_hash_event_counter self.
Proof.
  unfold connect_hashr. intros Hret.
  destruct (forallb id _); [|done]. cbn [negb] in Hret.
  destruct (reachable env); [|done]. cbn [negb] in Hret.
  destruct (forallb _ required_tables); [|done].
  cbn [negb] in Hret. by injection Hret as <- <-.
Qed.

Lemma check_after_connect self env self1 b hashes self2 m :
  connect_hashr self env = Return self1 b →
  check_against_hashr self1 hashes = Return self2 m →
  add_source_attribute self2 = HASHR_ADD_SOURCE_ATTRIBUTE env
  ∧ zerobyte_file_counter self2 = zerobyte_file_counter self
  ∧ known_hash_event_counter self2 = known_hash_event_counter self1
  ∧ ∃ batches,
      batch_hashes hashes
        (default DEFAULT_BATCH_SIZE (HASHR_QUERY_BATCH_SIZE env))
      = Ok batches
      ∧ hashr_conn self2 = Some (mkEngine (database env) batches 1).
Proof.
  intros Hconn Hcheck.
  destruct (connect_hashr_Return _ _ _ _ Hconn)
    as (Heng & _ & Hflag & Hsize & Hzero & _).
  apply check_against_hashr_Return in Hcheck
    as (eng & size & batches & [Hc _] & Hs & Hb & -> & _).
  rewrite Heng in Hc. injection Hc as <-.
  rewrite Hsize in Hs. injection Hs as <-.
  split_and!; [done|done|done|]. exists batches. split; [done|].
  simpl. by rewrite query_batches_engine.
Qed.

(** ** What a run does to the events *)

(** X17: with a batch size of at least 1, the events a returning run
    annotates are exactly those whose hash key hashR knows: a sample of the
    [samples] table when provenance tracking is disabled, a hash joined to a
    source when it is enabled. *)
Theorem run_matches_known_hashes (self : Analyzer) (env : Env)
    (events : list Event) (w : World) (out : Output) (e : Event) :
  run self env events = Return w out →
  (1 ≤ default DEFAULT_BATCH_SIZE (HASHR_QUERY_BATCH_SIZE env))%Z →
  e ∈ events →
  is_matched (matched_keys self env events) e = true
  ↔ ∃ k, hash_key e = Some k
         ∧ known (truthy (HASHR_ADD_SOURCE_ATTRIBUTE env)) (database env) k.
Proof.
  intros Hrun Hsize He.
  destruct (run_Return _ _ _ _ _ Hrun)
    as (self1 & b & st & Hconn & Hst
        & [[Hd ->]|(Hd & self2 & m & Hcheck)]).
  - rewrite (matched_keys_early _ _ _ _ _ _ Hconn Hst Hd), is_matched_nil.
    split; [done|]. intros (k & Hk & _).
    by destruct (collected_nonempty events st e Hst He ltac:(eauto)).
  - rewrite (matched_keys_main _ _ _ _ _ _ _ _ Hconn Hst Hd Hcheck).
    destruct (connect_hashr_Return _ _ _ _ Hconn)
      as (_ & _ & Hflag & Hbatch & _ & Hc).
    rewrite <-Hflag. unfold is_matched.
    destruct (hash_key e) as [k|] eqn:Hk.
    + rewrite bool_decide_eq_true.
      rewrite (lookup_result_keys self1 _ _ _ self2 m k Hc Hbatch Hsize
                 Hcheck).
      split.
      * intros [_ Hknown]. eauto.
      * intros (? & [= <-] & Hknown). split; [|done].
        apply (collected_keys events st k Hst). eauto.
    + split; [done|]. by intros (? & ? & _).
Qed.

Lemma run_matches_known_hashes_witness :
  ∃ w out,
    run (new_analyzer blank_output) (scenario_env true None) scenario_events
    = Return w out
    ∧ (is_matched
         (matched_keys (new_analyzer blank_output) (scenario_env true None)
            scenario_events) (event_with "sha256" (VStr H2)) = true
       ↔ ∃ k, hash_key (event_with "sha256" (VStr H2)) = Some k
              ∧ known true scenario_db k).
Proof.
  destruct (run (new_analyzer blank_output) (scenario_env true None)
              scenario_events) as [w out|w e] eqn:Hrun;
    [|vm_compute in Hrun; discriminate Hrun].
  exists w, out. split; [done|].
  apply (run_matches_known_hashes _ _ _ w out _ Hrun); [done|].
  unfold scenario_events. set_solver.
Defined.

(** X18: with provenance tracking enabled and a batch size of at least 1, an
    event whose hash hashR joins to at least one source (and is not the
    digest of the empty input) ends a returning run with the attribute
    [hashR_sample_sources] listing, once each, exactly the descriptors
    [reponame:sourceid] of the sources recorded for that hash. *)
Theorem run_attaches_recorded_sources (self : Analyzer) (env : Env)
    (events : list Event) (w : World) (out : Output) (j : nat) (e : Event)
    (k : string) :
  run self env events = Return w out →
  HASHR_ADD_SOURCE_ATTRIBUTE env = VBool true →
  (1 ≤ default DEFAULT_BATCH_SIZE (HASHR_QUERY_BATCH_SIZE env))%Z →
  events !! j = Some e → hash_key e = Some k → k ≠ zerobyte_hash →
  (∃ r, known_with_sources (database env) k r) →
  ∃ e' l,
    heap w !! j = Some e'
    ∧ attributes e' !! "hashR_sample_sources" = Some l
    ∧ NoDup l
    ∧ ∀ x, x ∈ l
           ↔ ∃ r, known_with_sources (database env) k r ∧ x = descriptor r.
Proof.
  intros Hrun Hflag Hsize He Hk Hz [r0 Hr0].
  assert (e ∈ events) as Hin by (by eapply list_elem_of_lookup_2).
  destruct (run_Return _ _ _ _ _ Hrun)
    as (self1 & b & st & Hconn & Hst
        & [[Hd ->]|(Hd & self2 & m & Hcheck)]).
  { by destruct (collected_nonempty events st e Hst Hin ltac:(eauto)). }
  destruct (connect_hashr_Return _ _ _ _ Hconn)
    as (_ & _ & Hflag1 & Hbatch & _ & Hc).
  rewrite Hflag in Hflag1.
  assert (truthy (add_source_attribute self1) = true) as Htrue
    by (by rewrite Hflag1).
  destruct (check_after_connect _ _ _ _ _ _ _ Hconn Hcheck)
    as (Hflag2 & _).
  rewrite Hflag in Hflag2.
  assert (k ∈ PyDict.keys m) as Hkey.
  { apply (lookup_result_keys self1 _ _ _ self2 m k Hc Hbatch Hsize Hcheck).
    split; [apply (collected_keys events st k Hst); eauto|].
    rewrite Htrue. simpl. eauto. }
  apply elem_of_keys in Hkey as [s Hget]. rewrite <-get_to_gmap in Hget.
  pose proof (lookup_result_provenance self1 _ _ _ self2 m k s
                (descriptor r0) Hc Hbatch Hsize Htrue Hcheck Hget) as Hs0.
  assert (s ≠ ∅) as Hne.
  { intros ->. apply (not_elem_of_empty (C:=gset string) (descriptor r0)).
    apply Hs0. eauto. }
  pose proof (run_with_hashes _ _ _ _ _ _ _ _ Hconn Hst Hd Hcheck) as Heq.
  lazy zeta in Heq. rewrite Heq in Hrun. injection Hrun as <- _.
  cbn [heap]. exists (annotated self2 m e), (elements s).
  rewrite list_lookup_fmap, He. split_and!; [done| |apply NoDup_elements|].
  - unfold annotated. rewrite Hk, Hget. unfold sources_of.
    rewrite Hflag2. cbn [truthy]. unfold annotate_event.
    rewrite decide_False by done. cbn [sources_truthy].
    rewrite bool_decide_false by done. simpl.
    apply lookup_union_Some_l. by apply lookup_singleton_eq.
  - intros x. rewrite elem_of_elements.
    apply (lookup_result_provenance self1 _ _ _ self2 m k s x Hc Hbatch
             Hsize Htrue Hcheck Hget).
Qed.

Lemma run_attaches_recorded_sources_witness :
  ∃ w out e' l,
    run (new_analyzer blank_output) (scenario_env true None) scenario_events
    = Return w out
    ∧ heap w !! 1 = Some e'
    ∧ attributes e' !! "hashR_sample_sources" = Some l
    ∧ ("imageA:src1" ∈ l
       ↔ ∃ r, known_with_sources scenario_db H1 r
              ∧ "imageA:src1" = descriptor r).
Proof.
  destruct (run (new_analyzer blank_output) (scenario_env true None)
              scenario_events) as [w out|w e] eqn:Hrun;
    [|vm_compute in Hrun; discriminate Hrun].
  destruct (run_attaches_recorded_sources (new_analyzer blank_output)
              (scenario_env true None) scenario_events w out 1
              (event_with "sha256" (VStr H1)) H1 Hrun eq_refl
              ltac:(done) eq_refl ltac:(vm_compute; reflexivity)
              ltac:(done))
    as (e' & l & He' & Hl & _ & Hiff).
  - exists (mkSourceRow "5c1" (CStr "src1") "imageA").
    split; simpl; set_solver.
  - exists w, out, e', l. split_and!; [done|done|done|apply Hiff].
Defined.

(** ** The summary *)

(** X19: the figures of the summary of a run that found a usable hash are
    true counts: the number of events of the stream, the number of hash keys
    in the MatchResult, the number of distinct usable hashes, the number of
    annotated events, the zero-byte counter (what it was before the run plus
    the events carrying the empty input's digest, when hashR knows it) and
    the number of events without a usable hash. The status is SUCCESS, the
    output is stored on the analyzer, and the attribute
    [known_hash_event_counter] is never updated. *)
Theorem run_summary_figures (self : Analyzer) (env : Env)
    (events : list Event) (w : World) (out : Output) :
  run self env events = Return w out →
  (∃ e, e ∈ events ∧ is_Some (hash_key e)) →
  let keys := matched_keys self env events in
  let figures (render : nat → nat → nat → nat → nat → nat → string) :=
    render (length events) (length keys)
      (size (list_to_set (C:=gset string) (omap hash_key events)))
      (length (filter (λ e, is_matched keys e = true) events))
      (zerobyte_events keys events + zerobyte_file_counter self)
      (length (filter (λ e, hash_key e = None) events)) in
  out = mkOutput "SUCCESS" "NOTE" (figures summary_text)
          (figures summary_markdown)
  ∧ output (analyzer w) = out
  ∧ unique_known_hash_counter (analyzer w) = length keys
  ∧ zerobyte_file_counter (analyzer w)
    = zerobyte_events keys events + zerobyte_file_counter self
  ∧ known_hash_event_counter (analyzer w) = known_hash_event_counter self.
Proof.
  intros Hrun (e & He & Hkey).
  destruct (run_Return _ _ _ _ _ Hrun)
    as (self1 & b & st & Hconn & Hst
        & [[Hd ->]|(Hd & self2 & m & Hcheck)]).
  { by destruct (collected_nonempty events st e Hst He Hkey). }
  rewrite (matched_keys_main _ _ _ _ _ _ _ _ Hconn Hst Hd Hcheck).
  pose proof (run_with_hashes _ _ _ _ _ _ _ _ Hconn Hst Hd Hcheck) as Heq.
  lazy zeta in Heq. rewrite Heq in Hrun. clear Heq.
  destruct (check_after_connect _ _ _ _ _ _ _ Hconn Hcheck)
    as (_ & Hzero & Hknown & _).
  pose proof (connect_hashr_known_counter _ _ _ _ Hconn) as Hknown1.
  assert (NoDup (PyDict.keys m)) as Hnd.
  { apply check_against_hashr_Return in Hcheck
      as (? & ? & ? & _ & _ & _ & _ & ->).
    apply query_batches_NoDup. constructor. }
  destruct (collect_events_counters _ _ _ _ Hst) as (Htotal & _ & Herr).
  simpl in Htotal, Herr.
  rewrite (zerobyte_count_events _ _ _ Hst) in Hrun.
  rewrite (tagged_count_matched _ _ _ Hst Hnd) in Hrun.
  rewrite (collected_len _ _ Hst), Htotal, Herr, Hzero in Hrun.
  assert (PyDict.len m = length (PyDict.keys m)) as Hlen.
  { unfold PyDict.len, PyDict.keys. by rewrite length_fmap. }
  rewrite Hlen in Hrun. injection Hrun as <- <-. lazy zeta.
  split_and!; [done|done|done| |].
  - cbn [analyzer set_output zerobyte_file_counter set_unique_known].
    rewrite iter_incr_zerobyte. cbn [zerobyte_file_counter].
    by rewrite Hzero.
  - cbn [analyzer set_output known_hash_event_counter set_unique_known].
    rewrite iter_incr_zerobyte. cbn [known_hash_event_counter]. congruence.
Qed.

Lemma run_summary_figures_witness :
  ∃ w out,
    run (new_analyzer blank_output) (scenario_env true None) scenario_events
    = Return w out
    ∧ result_status out = "SUCCESS"
    ∧ unique_known_hash_counter (analyzer w)
      = length (matched_keys (new_analyzer blank_output)
                  (scenario_env true None) scenario_events).
Proof.
  destruct (run (new_analyzer blank_output) (scenario_env true None)
              scenario_events) as [w out|w e] eqn:Hrun;
    [|vm_compute in Hrun; discriminate Hrun].
  destruct (run_summary_figures _ _ _ w out Hrun) as (Hout & _ & Hu & _).
  - exists (event_with "sha256" (VStr H1)).
    split; [unfold scenario_events; set_solver|by eexists].
  - exists w, out. split_and!; [done|by rewrite Hout|done].
Defined.

(** ** Runs that raise *)

Lemma check_against_hashr_Raise self eng size hashes self' e :
  connected self eng → query_batch_size self = Some size →
  check_against_hashr self hashes = Raise self' e →
  self' = self ∧ e = ZeroDivisionError ∧ size = 0%Z.
Proof.
  intros [Hconn Htables] Hsize. unfold check_against_hashr.
  rewrite Hconn, Htables, Hsize. cbn [negb].
  case_decide as Hz; [by intros [= <- <-]|].
  unfold batch_hashes, py_range. rewrite decide_False by done.
  case_decide; [|]; by destruct (query_batches _ _ _ _).
Qed.

Lemma run_Raise self env events w e :
  run self env events = Raise w e →
  (∃ self', connect_hashr self env = Raise self' e
            ∧ w = mkWorld self' events)
  ∨ (∃ self1 b,
       connect_hashr self env = Return self1 b
       ∧ w = mkWorld self1 events
       ∧ ((e = TypeError ∧ ∃ ev, ev ∈ events ∧ aborting ev)
          ∨ (e = ZeroDivisionError
             ∧ HASHR_QUERY_BATCH_SIZE env = Some 0%Z
             ∧ ¬ ∃ ev, ev ∈ events ∧ aborting ev))).
Proof.
  intros Hrun.
  destruct (connect_hashr self env) as [self1 b|self' e'] eqn:Hconn.
  - right. exists self1, b. split; [done|].
    destruct (collect_events 0 events collect_start) as [st|x] eqn:Hst.
    + assert (¬ ∃ ev, ev ∈ events ∧ aborting ev) as Hnone.
      { intros Hab.
        assert (collect_events 0 events collect_start = Err TypeError)
          as Herr by (by apply collect_events_Err).
        by rewrite Herr in Hst. }
      destruct (decide (hash_events_dict st = [])) as [Hd|Hd].
      { unfold run in Hrun. rewrite Hconn, Hst, Hd in Hrun. done. }
      destruct (check_against_hashr self1 (PyDict.keys (hash_events_dict st)))
        as [self2 m|self2 e2] eqn:Hcheck.
      { rewrite (run_with_hashes _ _ _ _ _ _ _ _ Hconn Hst Hd Hcheck)
          in Hrun. done. }
      destruct (connect_hashr_Return _ _ _ _ Hconn)
        as (_ & _ & _ & Hsize & _ & Hc).
      destruct (check_against_hashr_Raise _ _ _ _ _ _ Hc Hsize Hcheck)
        as (-> & -> & Hzero).
      unfold run in Hrun. rewrite Hconn, Hst in Hrun. lazy zeta in Hrun.
      assert ((PyDict.len (hash_events_dict st) <=? 0) = false) as Hlen
        by (by destruct (hash_events_dict st)).
      rewrite Hlen, Hcheck in Hrun. injection Hrun as <- <-.
      split; [done|]. right. split_and!; [done| |done].
      destruct (HASHR_QUERY_BATCH_SIZE env) as [size|]; [|done].
      simpl in Hzero. by subst.
    + unfold run in Hrun. rewrite Hconn, Hst in Hrun.
      injection Hrun as <- <-. split; [done|]. left.
      by apply collect_events_Err in Hst.
  - left. exists self'. unfold run in Hrun. rewrite Hconn in Hrun.
    by injection Hrun as <- <-.
Qed.



(** X21: once the connection is made, [run] raises [TypeError] exactly when
    some event's candidate value is truthy and either has no length (a
    number, [True]) or is a list of length 64, which cannot be a dictionary
    key. The run then stops inside the collection loop: the analyzer is as
    [connect_hashr] left it, so no query was sent and the engine was not
    disposed of, and no event was touched. *)
Theorem run_type_error (self : Analyzer) (env : Env) (events : list Event)
    (self1 : Analyzer) (b : bool) :
  connect_hashr self env = Return self1 b →
  (∃ ev, ev ∈ events ∧ aborting ev)
  ↔ run self env events = Raise (mkWorld self1 events) TypeError.
Proof.
  intros Hconn. split.
  - intros Hab.
    assert (collect_events 0 events collect_start = Err TypeError) as Herr
      by (by apply collect_events_Err).
    unfold run. by rewrite Hconn, Herr.
  - intros [(self' & Hconn' & _)
           |(? & ? & _ & _ & [[_ Hab]|([=] & _)])]%run_Raise; [|done].
    by rewrite Hconn in Hconn'.
Qed.

Lemma run_type_error_witness :
  ∃ self1,
    connect_hashr (new_analyzer blank_output) (scenario_env true None)
    = Return self1 true
    ∧ run (new_analyzer blank_output) (scenario_env true None) unsized_events
      = Raise (mkWorld self1 unsized_events) TypeError.
Proof.
  eexists. split; [reflexivity|].
  apply (proj1 (run_type_error (new_analyzer blank_output)
                  (scenario_env true None) unsized_events _ true eq_refl)).
  exists (event_with "hash" (VInt 7)). split.
  - unfold unsized_events. right. left.
  - split; [reflexivity|]. left. reflexivity.
Defined.

(** ** The queries of a run *)

(** X22: a returning run that found a usable hash, with a batch size of at
    least 1, has sent every distinct usable hash of the stream to hashR
    exactly once, however many events carry it, and has disposed of the
    engine exactly once. *)
Theorem run_queries_each_hash_once (self : Analyzer) (env : Env)
    (events : list Event) (w : World) (out : Output) :
  run self env events = Return w out →
  (∃ e, e ∈ events ∧ is_Some (hash_key e)) →
  (1 ≤ default DEFAULT_BATCH_SIZE (HASHR_QUERY_BATCH_SIZE env))%Z →
  ∃ batches,
    hashr_conn (analyzer w) = Some (mkEngine (database env) batches 1)
    ∧ NoDup (concat batches)
    ∧ ∀ k, k ∈ concat batches ↔ ∃ e, e ∈ events ∧ hash_key e = Some k.
Proof.
  intros Hrun (e & He & Hkey) Hsize.
  destruct (run_Return _ _ _ _ _ Hrun)
    as (self1 & b & st & Hconn & Hst
        & [[Hd ->]|(Hd & self2 & m & Hcheck)]).
  { by destruct (collected_nonempty events st e Hst He Hkey). }
  destruct (check_after_connect _ _ _ _ _ _ _ Hconn Hcheck)
    as (_ & _ & _ & batches & Hb & Heng).
  destruct (batch_hashes_concat (PyDict.keys (hash_events_dict st)) _ Hsize)
    as (batches' & Hb' & Hcat).
  rewrite Hb in Hb'. injection Hb' as <-.
  pose proof (run_with_hashes _ _ _ _ _ _ _ _ Hconn Hst Hd Hcheck) as Heq.
  lazy zeta in Heq. rewrite Heq in Hrun. injection Hrun as <- _.
  exists batches. rewrite Hcat. split_and!.
  - cbn [analyzer set_output set_unique_known hashr_conn].
    rewrite iter_incr_zerobyte. cbn [hashr_conn]. done.
  - apply (collect_events_NoDup_keys _ _ _ _ Hst). constructor.
  - intros k. apply (collected_keys _ _ _ Hst).
Qed.

Lemma run_queries_each_hash_once_witness :
  ∃ w out batches,
    run (new_analyzer blank_output) (scenario_env true None) scenario_events
    = Return w out
    ∧ hashr_conn (analyzer w) = Some (mkEngine scenario_db batches 1)
    ∧ NoDup (concat batches).
Proof.
  destruct (run (new_analyzer blank_output) (scenario_env true None)
              scenario_events) as [w out|w e] eqn:Hrun;
    [|vm_compute in Hrun; discriminate Hrun].
  destruct (run_queries_each_hash_once _ _ _ w out Hrun)
    as (batches & Heng & Hnd & _).
  - exists (event_with "sha256" (VStr H1)).
    split; [unfold scenario_events; left|by eexists].
  - done.
  - by exists w, out, batches.
Defined.

Lemma annotated_empty self e : annotated self PyDict.empty e = e.
Proof. unfold annotated. by destruct (hash_key e). Qed.

(** X23: a negative batch size is not reported as an error: [run] returns
    with status SUCCESS, having sent no query and touched no event, as if
    hashR knew none of the hashes. *)
Theorem run_negative_batch_size (self : Analyzer) (env : Env)
    (events : list Event) (size : Z) :
  config_complete env → reachable env = true →
  (∀ t, t ∈ required_tables → t ∈ table_names (database env)) →
  (∀ ev, ev ∈ events → ¬ aborting ev) →
  HASHR_QUERY_BATCH_SIZE env = Some size → (size < 0)%Z →
  ∃ w out,
    run self env events = Return w out
    ∧ result_status out = "SUCCESS"
    ∧ heap w = events
    ∧ matched_keys self env events = []
    ∧ executed <$> hashr_conn (analyzer w) = Some [].
Proof.
  intros (Hu & Hp & Ha & Hpo & Hn & Hbool) Hreach Htables Hnone Hsize Hneg.
  assert (forallb (λ t, bool_decide (t ∈ table_names (database env)))
            required_tables = true) as Htab.
  { apply forallb_forall. intros t Ht%list_elem_of_In.
    apply bool_decide_eq_true. by apply Htables. }
  set (self1 := set_conn (Some (mkEngine (database env) [] 0))
                  (set_settings (HASHR_ADD_SOURCE_ATTRIBUTE env)
                     (default 50000%Z (HASHR_QUERY_BATCH_SIZE env)) self)).
  assert (connect_hashr self env = Return self1 true) as Hconn.
  { unfold connect_hashr. cbn [forallb id add_source_attribute set_settings].
    rewrite Hu, Hp, Ha, Hpo, Hn, Hbool.
    cbn [andb negb]. rewrite Hreach. cbn [negb]. rewrite Htab. done. }
  destruct (collect_events 0 events collect_start) as [st|x] eqn:Hst; last first.
  { apply collect_events_Err in Hst as [_ (ev & Hev & Hab)].
    by destruct (Hnone ev Hev). }
  destruct (decide (hash_events_dict st = [])) as [Hd|Hd].
  - eexists _, _. unfold run. rewrite Hconn, Hst, Hd. cbn [PyDict.len length Nat.leb].
    split; [done|]. split_and!; [done|done| |done].
    eapply matched_keys_early; done.
  - assert (check_against_hashr self1 (PyDict.keys (hash_events_dict st))
            = Return (set_conn (Some (dispose (mkEngine (database env) [] 0)))
                        self1) PyDict.empty) as Hcheck.
    { unfold check_against_hashr, self1.
      cbn [hashr_conn set_conn db query_batch_size set_settings].
      rewrite Htab. cbn [negb]. rewrite Hsize. simpl. rewrite decide_False by lia.
      unfold batch_hashes, py_range.
      rewrite decide_False by lia. by rewrite decide_True. }
    pose proof (run_with_hashes _ _ _ _ _ _ _ _ Hconn Hst Hd Hcheck) as Heq.
    lazy zeta in Heq. eexists _, _. split; [exact Heq|].
    split_and!; [done| | |done].
    + cbn [heap]. rewrite <-(list_fmap_id events) at 2.
      apply list_fmap_ext. intros ? ? _. apply annotated_empty.
    + by rewrite (matched_keys_main _ _ _ _ _ _ _ _ Hconn Hst Hd Hcheck).
Qed.

Lemma run_negative_batch_size_witness :
  ∃ w out,
    run (new_analyzer blank_output) (scenario_env true (Some (-1)%Z))
      scenario_events = Return w out
    ∧ heap w = scenario_events
    ∧ matched_keys (new_analyzer blank_output)
        (scenario_env true (Some (-1)%Z)) scenario_events = [].
Proof.
  destruct (run_negative_batch_size (new_analyzer blank_output)
              (scenario_env true (Some (-1)%Z)) scenario_events (-1))
    as (w & out & Hrun & _ & Hheap & Hkeys & _).
  - by split_and!.
  - reflexivity.
  - intros t Ht. vm_compute in Ht |- *.
    repeat (apply elem_of_cons in Ht as [->|Ht]; [set_solver|]).
    by apply elem_of_nil in Ht.
  - intros ev Hev [Htruthy [Hlen|(l & Hl & _)]].
    + unfold scenario_events in Hev.
      repeat (apply elem_of_cons in Hev as [->|Hev]; [discriminate Hlen|]).
      by apply elem_of_nil in Hev.
    + unfold scenario_events in Hev.
      repeat (apply elem_of_cons in Hev as [->|Hev]; [discriminate Hl|]).
      by apply elem_of_nil in Hev.
  - reflexivity.
  - lia.
  - by exists w, out.
Defined.

(** ** One commit per event, in every run *)




